(** * k8s-fuse: the population hooks of [cmd/k8s-fuse.go]

    A shallow embedding of the five [OnAdd] hooks, of [KubernetesRoot.Getattr]
    and of the [mount] command, followed by the properties of the tree they
    build.

    Go values are modelled as follows.
    - [error] is the message it carries; a [panic] is a [Panic] result that
      keeps the state reached so far (nothing in the source recovers).
    - a [*kubernetes.Clientset] is an [option] of a handle: [None] is the
      nil pointer, and two handles are equal when they are the same
      pointer.
    - the [fs.Inode] embedded in every node is the ordered list of its
      children, names unique, in the order they were added; a child is
      an inode with its own children.
    - client-go, encoding/json, flag, homedir and filepath are
      collaborators outside the repository: they are the fields of
      [Resource] and [Cluster]; the kernel side of [fs.Mount] is a variable
      of the section on the command.
    - go-fuse runs [OnAdd] inside [NewPersistentInode], on the inode it
      has just made, and [fs.Mount] runs the root's [OnAdd] before it
      mounts: a hook runs the hooks of the directories it creates, their
      requests go to the same log and their panics are its own. *)

From Stdlib Require Import String List ZArith Lia Bool Strings.Byte.
Import ListNotations.
Open Scope string_scope.

Set Implicit Arguments.

(** ** Results of a Go call *)

Definition error := string.
Definition bytes := list byte.

Inductive PanicValue : Type :=
| PanicError (err : error)            (* panic(err) *)
| NilPointerDereference               (* method value read through a nil pointer *)
| EmptyInodeName                      (* go-fuse: AddChild given an empty name *)
| IndexOutOfRange (index len : nat).  (* runtime error: index out of range *)

Inductive Result (A : Type) : Type :=
| Ok (a : A)
| Panic (v : PanicValue).

Arguments Ok {A} a.
Arguments Panic {A} v.

(** ** The fuse side: attributes and inodes *)

Module Fuse.

Definition S_IFMT  : Z := 61440.   (* 0170000 *)
Definition S_IFDIR : Z := 16384.   (* 0040000 *)
Definition S_IFREG : Z := 32768.   (* 0100000 *)

(** [fuse.Attr]: the fields the program reads or writes; all others keep
    their zero value. *)
Record Attr : Type := { Ino : Z; Size : Z; Mode : Z }.

(** [fuse.AttrOut] *)
Record AttrOut : Type := { AttrValid : Z; attr : Attr }.

Definition setMode (m : Z) (out : AttrOut) : AttrOut :=
  {| AttrValid := AttrValid out;
     attr := {| Ino := Ino (attr out); Size := Size (attr out); Mode := m |} |}.

(** [fs.StableAttr]: the source only ever sets [Mode]. *)
Record StableAttr : Type := { saMode : Z }.

End Fuse.

Import Fuse.

(** 0644 and 0755, the two octal literals of the source. *)
Definition o644 : Z := 6 * 64 + 4 * 8 + 4.
Definition o755 : Z := 7 * 64 + 5 * 8 + 5.

(** ** Requests sent to the collaborators, in the order they are made *)

Inductive Kind : Type := Service | Deployment | Ingress.

Inductive Request : Type :=
| ReqBuildConfig (masterUrl kubeconfigPath : string)
| ReqNewForConfig
| ReqListNamespaces
| ReqList (k : Kind) (namespace : string).

(** How many times a log asks for a new connection. *)
Definition isNewForConfig (q : Request) : bool :=
  match q with
  | ReqNewForConfig => true
  | _ => false
  end.

Definition connectionsBuilt (log : list Request) : nat :=
  length (filter isNewForConfig log).

(** The two requests of the connection bootstrap. *)
Definition isBootstrap (q : Request) : bool :=
  match q with
  | ReqBuildConfig _ _ | ReqNewForConfig => true
  | _ => false
  end.

(** The panics a hook can end in: all but the index out of range. *)
Definition hookPanic (v : PanicValue) : Prop :=
  match v with
  | IndexOutOfRange _ _ => False
  | _ => True
  end.

(** [l'] is [l] followed by elements that all satisfy [P]. *)
Definition appended {X} (P : X -> Prop) (l l' : list X) : Prop :=
  exists added, l' = (l ++ added)%list /\ Forall P added.

(** ** The hook monad: receiver fields, children, request log *)

Section HookMonad.

Variable Node : Type.   (* what a child entry points to *)
Variable R : Type.      (* the fields of the receiver struct *)

Record state : Type := {
  recv : R;
  children : list (string * Node);
  requests : list Request
}.

Definition M (A : Type) : Type := state -> Result A * state.

Definition ret {A} (a : A) : M A := fun s => (Ok a, s).

Definition bind {A B} (m : M A) (f : A -> M B) : M B :=
  fun s => match m s with
           | (Ok a, s') => f a s'
           | (Panic v, s') => (Panic v, s')
           end.

Definition panic {A} (v : PanicValue) : M A := fun s => (Panic v, s).

Definition get_recv : M R := fun s => (Ok (recv s), s).

Definition set_recv (r : R) : M unit :=
  fun s => (Ok tt, {| recv := r; children := children s; requests := requests s |}).

Definition request (q : Request) : M unit :=
  fun s => (Ok tt, {| recv := recv s; children := children s;
                      requests := requests s ++ [q] |}).

(** [x, err := f(...); if err != nil { panic(err) }] *)
Definition orPanic {A} (x : error + A) : M A :=
  match x with
  | inl err => panic (PanicError err)
  | inr a => ret a
  end.

(** [for _, x := range xs { body }] *)
Fixpoint forRange {A} (xs : list A) (body : A -> M unit) : M unit :=
  match xs with
  | [] => ret tt
  | x :: rest => bind (body x) (fun _ => forRange rest body)
  end.

(** Child lookup by name. *)
Fixpoint lookup (name : string) (cs : list (string * Node)) : option Node :=
  match cs with
  | [] => None
  | (n, ch) :: rest => if String.eqb n name then Some ch else lookup name rest
  end.

Fixpoint replace (name : string) (ch : Node) (cs : list (string * Node)) :=
  match cs with
  | [] => []
  | (n, c) :: rest =>
      if String.eqb n name then (n, ch) :: rest else (n, c) :: replace name ch rest
  end.

(** [Inode.AddChild(name, ch, overwrite)]: panics on the empty name; when
    the name is taken and [overwrite] is false it changes nothing and
    returns false. *)
Definition AddChild (name : string) (ch : Node) (overwrite : bool) : M bool :=
  fun s =>
    if String.eqb name EmptyString then (Panic EmptyInodeName, s)
    else match lookup name (children s) with
         | Some _ =>
             if overwrite
             then (Ok true, {| recv := recv s;
                               children := replace name ch (children s);
                               requests := requests s |})
             else (Ok false, s)
         | None =>
             (Ok true, {| recv := recv s;
                          children := children s ++ [(name, ch)];
                          requests := requests s |})
         end.

(** What a run of [AddChild(_, _, false)] calls leaves, as a function. *)
Definition addNew (cs : list (string * Node)) (e : string * Node)
  : list (string * Node) :=
  match lookup (fst e) cs with
  | Some _ => cs
  | None => cs ++ [e]
  end.

Definition register (new cs : list (string * Node)) : list (string * Node) :=
  fold_left addNew new cs.

(** What holds after [m] run from [s]: [Q] of the value and the state if
    it returns, [E] of the panic value and the state if it panics. *)
Definition wp {A} (m : M A) (Q : A -> state -> Prop)
  (E : PanicValue -> state -> Prop) (s : state) : Prop :=
  match m s with
  | (Ok a, s') => Q a s'
  | (Panic v, s') => E v s'
  end.

End HookMonad.

Arguments ret {Node R A} a.
Arguments panic {Node R A} v.
Arguments get_recv {Node R}.
Arguments set_recv {Node R} r.
Arguments request {Node R} q.
Arguments orPanic {Node R A} x.
Arguments AddChild {Node R} name ch overwrite.
Arguments lookup {Node} name cs.
Arguments addNew {Node} cs e.
Arguments register {Node} new cs.
Arguments wp {Node R A} m Q E s.

Declare Scope hook_scope.
Delimit Scope hook_scope with hook.
Notation "x <- m ;; k" := (bind m (fun x => k))
  (at level 61, m at next level, right associativity) : hook_scope.
Notation "m ;;; k" := (bind m (fun _ => k))
  (at level 61, right associativity) : hook_scope.

(** ** The cluster side *)

(** What the hooks use of a Kubernetes object: [x.Name] and
    [json.MarshalIndent(x, prefix, indent)]. *)
Class Resource (T : Type) : Type := {
  Name : T -> string;
  MarshalIndent : T -> string -> string -> error + bytes
}.

(** ** Reading the result of a listing *)

Section Listing.

Variable T : Type.
Context {ResT : Resource T}.

(** What [json.MarshalIndent] gives for [x] with the prefix and indent of
    the source: no prefix, one space. *)
Definition pretty (x : T) : error + bytes := MarshalIndent x EmptyString " ".

Definition content (x : T) : bytes :=
  match pretty x with
  | inr b => b
  | inl _ => []
  end.

Definition named (name : string) (x : T) : bool := String.eqb (Name x) name.

(** The items whose name no earlier item (nor [seen]) carries. *)
Fixpoint firstByName (seen : list string) (xs : list T) : list T :=
  match xs with
  | [] => []
  | x :: rest =>
      if existsb (String.eqb (Name x)) seen
      then firstByName seen rest
      else x :: firstByName (seen ++ [Name x]) rest
  end.

End Listing.

(** The same hook invoked [n] times in a row on one node. *)
Fixpoint times {Node R} (n : nat) (h : M Node R unit) : M Node R unit :=
  match n with
  | O => ret tt
  | S n' => bind h (fun _ => times n' h)
  end.

(** The collaborators of one run of the program. *)
Class Cluster : Type := {
  Clientset : Type;           (* *kubernetes.Clientset, when not nil *)
  Config : Type;              (* rest.Config *)
  Namespace : Type;           (* apiv1.Namespace *)
  Item : Kind -> Type;        (* apiv1.Service, appsv1.Deployment,
                                 networkingv1.Ingress *)
  ResNamespace :: Resource Namespace;
  ResItem :: forall k, Resource (Item k);

  (** [Namespaces().List], and [Services(ns).List], [Deployments(ns).List],
      [Ingresses(ns).List]: the [Items] of the answer, or the error. *)
  ListNamespaces : Clientset -> error + list Namespace;
  ListItems : forall k : Kind, Clientset -> string -> error + list (Item k);

  (** Connection bootstrap. [commandLine f] is the value the process
      arguments give to flag [f], if they set it. *)
  HomeDir : string;
  Join : list string -> string;
  commandLine : string -> option string;
  BuildConfigFromFlags : string -> string -> error + Config;
  NewForConfig : Config -> error + Clientset
}.

(** ** A small cluster to run the hooks on *)

Module Demo.

(** An object is a name and a body; it serializes to [name:body]. *)
Record Object : Type := { objName : string; objBody : string }.

Definition encode (x : Object) : bytes :=
  list_byte_of_string (objName x ++ ":" ++ objBody x).

#[global] Instance ResObject : Resource Object :=
  {| Name := objName; MarshalIndent := fun x _ _ => inr (encode x) |}.

Definition obj (n b : string) : Object := {| objName := n; objBody := b |}.

Definition default : Object := obj "default" "Active".
Definition svcA : Object := obj "svc-a" "ClusterIP".

Definition joinPath (parts : list string) : string :=
  String.concat "/" (filter (fun p => negb (String.eqb p EmptyString)) parts).

(** Two namespaces; [default] has one service, no deployment, one ingress. *)
Definition listed (k : Kind) (cs : nat) (ns : string) : error + list Object :=
  if String.eqb ns "default"
  then match k with
       | Service => inr [svcA]
       | Deployment => inr []
       | Ingress => inr [obj "ing-1" "nginx"]
       end
  else inr [].

Definition cluster : Cluster :=
  {| Clientset := nat;
     Config := string;
     Namespace := Object;
     Item := fun _ => Object;
     ResNamespace := ResObject;
     ResItem := fun _ => ResObject;
     ListNamespaces := fun _ =>
       inr [default; obj "kube-system" "Active"];
     ListItems := listed;
     HomeDir := "/home/op";
     Join := joinPath;
     commandLine := fun _ => None;
     BuildConfigFromFlags := fun _ path => inr path;
     NewForConfig := fun _ => inr 7 |}.

(** The same cluster seen from a process without home directory. *)
Definition homeless : Cluster :=
  {| Clientset := nat;
     Config := string;
     Namespace := Object;
     Item := fun _ => Object;
     ResNamespace := ResObject;
     ResItem := fun _ => ResObject;
     ListNamespaces := fun _ =>
       inr [default; obj "kube-system" "Active"];
     ListItems := listed;
     HomeDir := EmptyString;
     Join := joinPath;
     commandLine := fun _ => None;
     BuildConfigFromFlags := fun _ path => inr path;
     NewForConfig := fun _ => inr 7 |}.

(** A cluster that answers every listing with an error. *)
Definition failing : Cluster :=
  {| Clientset := nat;
     Config := string;
     Namespace := Object;
     Item := fun _ => Object;
     ResNamespace := ResObject;
     ResItem := fun _ => ResObject;
     ListNamespaces := fun _ => inl "forbidden";
     ListItems := fun _ _ _ => inl "forbidden";
     HomeDir := "/home/op";
     Join := joinPath;
     commandLine := fun _ => None;
     BuildConfigFromFlags := fun _ path => inr path;
     NewForConfig := fun _ => inr 7 |}.

(** A cluster whose listings repeat a name. *)
Definition repeating : Cluster :=
  {| Clientset := nat;
     Config := string;
     Namespace := Object;
     Item := fun _ => Object;
     ResNamespace := ResObject;
     ResItem := fun _ => ResObject;
     ListNamespaces := fun _ =>
       inr [obj "default" "first"; obj "other" "x"; obj "default" "second"];
     ListItems := fun _ _ _ =>
       inr [obj "a" "first"; obj "b" "x"; obj "a" "second"];
     HomeDir := "/home/op";
     Join := joinPath;
     commandLine := fun _ => None;
     BuildConfigFromFlags := fun _ path => inr path;
     NewForConfig := fun _ => inr 7 |}.

End Demo.

(** ** Clusters on which something fails *)

Module Fragile.

(** Objects whose body is [cyclic] do not serialize. *)
Definition ResObject : Resource Demo.Object :=
  {| Name := Demo.objName;
     MarshalIndent := fun x _ _ =>
       if String.eqb (Demo.objBody x) "cyclic"
       then inl "json: unsupported value"
       else inr (Demo.encode x) |}.

Definition good : Demo.Object := Demo.obj "a" "ok".
Definition bad : Demo.Object := Demo.obj "b" "cyclic".
Definition late : Demo.Object := Demo.obj "c" "ok".

(** Every listing is [a], [b], [c], and [b] does not serialize. *)
Definition cluster : Cluster :=
  {| Clientset := nat;
     Config := string;
     Namespace := Demo.Object;
     Item := fun _ => Demo.Object;
     ResNamespace := ResObject;
     ResItem := fun _ => ResObject;
     ListNamespaces := fun _ => inr [good; bad; late];
     ListItems := fun _ _ _ => inr [good; bad; late];
     HomeDir := "/home/op";
     Join := Demo.joinPath;
     commandLine := fun _ => None;
     BuildConfigFromFlags := fun _ path => inr path;
     NewForConfig := fun _ => inr 7 |}.

(** No configuration can be read. *)
Definition unconfigured : Cluster :=
  {| Clientset := nat;
     Config := string;
     Namespace := Demo.Object;
     Item := fun _ => Demo.Object;
     ResNamespace := Demo.ResObject;
     ResItem := fun _ => Demo.ResObject;
     ListNamespaces := fun _ => inr [Demo.default];
     ListItems := Demo.listed;
     HomeDir := "/home/op";
     Join := Demo.joinPath;
     commandLine := fun _ => None;
     BuildConfigFromFlags := fun _ _ => inl "no such file";
     NewForConfig := fun _ => inr 7 |}.

(** The configuration is read but no client can be made of it. *)
Definition refused : Cluster :=
  {| Clientset := nat;
     Config := string;
     Namespace := Demo.Object;
     Item := fun _ => Demo.Object;
     ResNamespace := Demo.ResObject;
     ResItem := fun _ => Demo.ResObject;
     ListNamespaces := fun _ => inr [Demo.default];
     ListItems := Demo.listed;
     HomeDir := "/home/op";
     Join := Demo.joinPath;
     commandLine := fun _ => None;
     BuildConfigFromFlags := fun _ path => inr path;
     NewForConfig := fun _ => inl "bad certificate" |}.

(** The namespaces are listed, but the services of [default] are not. *)
Definition scenarioB : Cluster :=
  {| Clientset := nat;
     Config := string;
     Namespace := Demo.Object;
     Item := fun _ => Demo.Object;
     ResNamespace := Demo.ResObject;
     ResItem := fun _ => Demo.ResObject;
     ListNamespaces := fun _ =>
       inr [Demo.default; Demo.obj "kube-system" "Active"];
     ListItems := fun k cs ns =>
       match k with
       | Service =>
           if String.eqb ns "default" then inl "forbidden"
           else Demo.listed k cs ns
       | _ => Demo.listed k cs ns
       end;
     HomeDir := "/home/op";
     Join := Demo.joinPath;
     commandLine := fun _ => None;
     BuildConfigFromFlags := fun _ path => inr path;
     NewForConfig := fun _ => inr 7 |}.

End Fragile.

Section K8sFuse.

Context {env : Cluster}.

(** *** The node types *)

Record KubernetesRoot : Type := { root_clientset : option Clientset }.

Record KubernetesNamespace : Type := {
  ns_clientset : option Clientset;
  ns_namespace : Namespace
}.

Record KubernetesServices : Type := {
  svc_clientset : option Clientset;
  svc_namespace : string
}.

Record KubernetesDeployments : Type := {
  dep_clientset : option Clientset;
  dep_namespace : string
}.

Record KubernetesIngress : Type := {
  ing_clientset : option Clientset;
  ing_namespace : string
}.

(** [fs.MemRegularFile] *)
Record MemRegularFile : Type := { Data : bytes; Attr : Fuse.Attr }.

(** The values passed to [NewPersistentInode] (and to [fs.Mount]). *)
Inductive InodeEmbedder : Type :=
| EmbRoot (r : KubernetesRoot)
| EmbNamespace (r : KubernetesNamespace)
| EmbServices (r : KubernetesServices)
| EmbDeployments (r : KubernetesDeployments)
| EmbIngress (r : KubernetesIngress)
| EmbFile (f : MemRegularFile).

(** An [*fs.Inode]: the embedder, the stable attributes and the children
    registered under it. *)
#[warnings="-register-all"]
Inductive Inode : Type := {
  ops : InodeEmbedder;
  stableAttr : StableAttr;
  kids : list (string * Inode)
}.

Definition Hook (R : Type) : Type := M Inode R unit.

(** The interfaces [fs.InodeEmbedder] and [fs.NodeOnAdder] for a struct
    [C]: how it is embedded, and its [OnAdd] method if it has one. *)
Class Embeds (C : Type) : Type := {
  embedder : C -> InodeEmbedder;
  onAdd : option (Hook C)
}.

(** Only the file-type bits of [id.Mode] are kept, and no type means a
    regular file. *)
Definition fileType (id : StableAttr) : StableAttr :=
  let m := Z.land (saMode id) S_IFMT in
  {| saMode := if Z.eqb m 0 then S_IFREG else m |}.

(** [NewPersistentInode(ctx, node, id)]: makes the inode and, when [node]
    has an [OnAdd], runs it on the new inode before returning. The
    requests of that run join the log; its panic is the caller's. *)
Definition NewPersistentInode {R C} {E : Embeds C} (node : C) (id : StableAttr)
  : M Inode R Inode :=
  fun s =>
    match onAdd with
    | None =>
        (Ok {| ops := embedder node; stableAttr := fileType id; kids := [] |}, s)
    | Some OnAdd =>
        match OnAdd {| recv := node; children := []; requests := requests s |} with
        | (Ok _, s') =>
            (Ok {| ops := embedder (recv s'); stableAttr := fileType id;
                   kids := children s' |},
             {| recv := recv s; children := children s;
                requests := requests s' |})
        | (Panic v, s') =>
            (Panic v,
             {| recv := recv s; children := children s;
                requests := requests s' |})
        end
    end.

(** Calling a method of the clientset through the pointer. *)
Definition deref {R} (c : option Clientset) : M Inode R Clientset :=
  match c with
  | None => panic NilPointerDereference
  | Some cs => ret cs
  end.

(** [flag.String(name, value, usage)] followed by [flag.Parse()] and a
    read of the flag. *)
Definition flag_String (name value : string) : string :=
  match commandLine name with
  | Some v => v
  | None => value
  end.

Local Open Scope hook_scope.

(** [fs.MemRegularFile] has no [OnAdd]. *)
#[global] Instance Embeds_MemRegularFile : Embeds MemRegularFile :=
  {| embedder := EmbFile; onAdd := None |}.

(** The body the three collection loops share, written once for the
    proofs; each hook below spells it out as the source does. *)
Definition addLeaf {T} {ResT : Resource T} {R} (resource : T) : Hook R :=
  b <- orPanic (MarshalIndent resource EmptyString " ") ;;
  ch <- NewPersistentInode
          {| Data := b; Attr := {| Ino := 0; Size := 0; Mode := o644 |} |}
          {| saMode := 0 |} ;;
  _ <- AddChild (Name resource) ch false ;;
  ret tt.

(** *** [func (r *KubernetesServices) OnAdd] *)
Definition KubernetesServices_OnAdd : Hook KubernetesServices :=
  r <- get_recv ;;
  cs <- deref (svc_clientset r) ;;
  request (ReqList Service (svc_namespace r)) ;;;
  services <- orPanic (ListItems Service cs (svc_namespace r)) ;;
  forRange services (fun resource =>
    b <- orPanic (MarshalIndent resource EmptyString " ") ;;
    ch <- NewPersistentInode
            {| Data := b; Attr := {| Ino := 0; Size := 0; Mode := o644 |} |}
            {| saMode := 0 |} ;;
    _ <- AddChild (Name resource) ch false ;;
    ret tt).

(** *** [func (r *KubernetesDeployments) OnAdd] *)
Definition KubernetesDeployments_OnAdd : Hook KubernetesDeployments :=
  r <- get_recv ;;
  cs <- deref (dep_clientset r) ;;
  request (ReqList Deployment (dep_namespace r)) ;;;
  deployments <- orPanic (ListItems Deployment cs (dep_namespace r)) ;;
  forRange deployments (fun resource =>
    b <- orPanic (MarshalIndent resource EmptyString " ") ;;
    ch <- NewPersistentInode
            {| Data := b; Attr := {| Ino := 0; Size := 0; Mode := o644 |} |}
            {| saMode := 0 |} ;;
    _ <- AddChild (Name resource) ch false ;;
    ret tt).

(** *** [func (r *KubernetesIngress) OnAdd] *)
Definition KubernetesIngress_OnAdd : Hook KubernetesIngress :=
  r <- get_recv ;;
  cs <- deref (ing_clientset r) ;;
  request (ReqList Ingress (ing_namespace r)) ;;;
  ingresses <- orPanic (ListItems Ingress cs (ing_namespace r)) ;;
  forRange ingresses (fun resource =>
    b <- orPanic (MarshalIndent resource EmptyString " ") ;;
    ch <- NewPersistentInode
            {| Data := b; Attr := {| Ino := 0; Size := 0; Mode := o644 |} |}
            {| saMode := 0 |} ;;
    _ <- AddChild (Name resource) ch false ;;
    ret tt).

#[global] Instance Embeds_KubernetesServices : Embeds KubernetesServices :=
  {| embedder := EmbServices; onAdd := Some KubernetesServices_OnAdd |}.

#[global] Instance Embeds_KubernetesDeployments : Embeds KubernetesDeployments :=
  {| embedder := EmbDeployments; onAdd := Some KubernetesDeployments_OnAdd |}.

#[global] Instance Embeds_KubernetesIngress : Embeds KubernetesIngress :=
  {| embedder := EmbIngress; onAdd := Some KubernetesIngress_OnAdd |}.

(** *** [func (r *KubernetesNamespace) OnAdd] *)
Definition KubernetesNamespace_OnAdd : Hook KubernetesNamespace :=
  r <- get_recv ;;
  b <- orPanic (MarshalIndent (ns_namespace r) EmptyString " ") ;;
  ch <- NewPersistentInode
          {| Data := b; Attr := {| Ino := 0; Size := 0; Mode := o644 |} |}
          {| saMode := 0 |} ;;
  _ <- AddChild "namespace.json" ch false ;;
  services <- NewPersistentInode
                {| svc_clientset := ns_clientset r;
                   svc_namespace := Name (ns_namespace r) |}
                {| saMode := S_IFDIR |} ;;
  _ <- AddChild "services" services false ;;
  deployments <- NewPersistentInode
                   {| dep_clientset := ns_clientset r;
                      dep_namespace := Name (ns_namespace r) |}
                   {| saMode := S_IFDIR |} ;;
  _ <- AddChild "deployments" deployments false ;;
  ingresses <- NewPersistentInode
                 {| ing_clientset := ns_clientset r;
                    ing_namespace := Name (ns_namespace r) |}
                 {| saMode := S_IFDIR |} ;;
  _ <- AddChild "ingresses" ingresses false ;;
  ret tt.

#[global] Instance Embeds_KubernetesNamespace : Embeds KubernetesNamespace :=
  {| embedder := EmbNamespace; onAdd := Some KubernetesNamespace_OnAdd |}.

(** The body of the root's loop, written once for the proofs. *)
Definition addNamespace (namespace : Namespace) : Hook KubernetesRoot :=
  r <- get_recv ;;
  chDir <- NewPersistentInode
             {| ns_clientset := root_clientset r; ns_namespace := namespace |}
             {| saMode := S_IFDIR |} ;;
  _ <- AddChild (Name namespace) chDir false ;;
  ret tt.

(** *** [func (r *KubernetesRoot) OnAdd] *)
Definition KubernetesRoot_OnAdd : Hook KubernetesRoot :=
  r <- get_recv ;;
  match root_clientset r with
  | None =>
      let kubeconfig :=
        if negb (String.eqb HomeDir EmptyString)
        then flag_String "kubeconfig" (Join [HomeDir; ".kube"; "config"])
        else flag_String "kubeconfig" EmptyString in
      request (ReqBuildConfig EmptyString kubeconfig) ;;;
      config <- orPanic (BuildConfigFromFlags EmptyString kubeconfig) ;;
      request ReqNewForConfig ;;;
      clientset <- orPanic (NewForConfig config) ;;
      set_recv {| root_clientset := Some clientset |}
  | Some _ => ret tt
  end ;;;
  r <- get_recv ;;
  cs <- deref (root_clientset r) ;;
  request ReqListNamespaces ;;;
  namespaces <- orPanic (ListNamespaces cs) ;;
  forRange namespaces (fun namespace =>
    r <- get_recv ;;
    chDir <- NewPersistentInode
               {| ns_clientset := root_clientset r; ns_namespace := namespace |}
               {| saMode := S_IFDIR |} ;;
    _ <- AddChild (Name namespace) chDir false ;;
    ret tt).

#[global] Instance Embeds_KubernetesRoot : Embeds KubernetesRoot :=
  {| embedder := EmbRoot; onAdd := Some KubernetesRoot_OnAdd |}.

(** *** [func (r *KubernetesRoot) Getattr]: the new [*out] and the errno *)
Definition KubernetesRoot_Getattr (r : KubernetesRoot) (out : AttrOut)
  : AttrOut * Z :=
  (setMode o755 out, 0%Z).

(** *** The tree the hooks build *)

(** A node on which no hook has run yet. *)
Definition fresh {R} (r : R) : state Inode R :=
  {| recv := r; children := []; requests := [] |}.

(** The root inode of a mount: a directory. *)
Definition rootInode (r : KubernetesRoot) (children : list (string * Inode))
  : Inode :=
  {| ops := EmbRoot r; stableAttr := {| saMode := S_IFDIR |};
     kids := children |}.

(** [fs.NewNodeFS(root, opts)], the first step of [fs.Mount]: the root's
    [OnAdd] runs on the root inode. The tree, or the panic, and the
    requests made. *)
Definition NewNodeFS (root : KubernetesRoot) : Result Inode * list Request :=
  match KubernetesRoot_OnAdd (fresh root) with
  | (Ok _, s) => (Ok (rootInode (recv s) (children s)), requests s)
  | (Panic v, s) => (Panic v, requests s)
  end.

(** Path resolution below a node, one name at a time. *)
Fixpoint walk (n : Inode) (path : list string) : option Inode :=
  match path with
  | [] => Some n
  | name :: rest =>
      match lookup name (kids n) with
      | Some ch => walk ch rest
      | None => None
      end
  end.

(** The connection handle a node holds; files hold none. *)
Definition handle (e : InodeEmbedder) : option (option Clientset) :=
  match e with
  | EmbRoot r => Some (root_clientset r)
  | EmbNamespace r => Some (ns_clientset r)
  | EmbServices r => Some (svc_clientset r)
  | EmbDeployments r => Some (dep_clientset r)
  | EmbIngress r => Some (ing_clientset r)
  | EmbFile _ => None
  end.

(** The leaf every hook makes of serialized bytes. *)
Definition leaf (b : bytes) : Inode :=
  {| ops := EmbFile {| Data := b;
                       Attr := {| Ino := 0; Size := 0; Mode := o644 |} |};
     stableAttr := {| saMode := S_IFREG |};
     kids := [] |}.

(** The child entry made of a listed object. *)
Definition entry {T} {ResT : Resource T} (node : T -> Inode) (x : T)
  : string * Inode := (Name x, node x).

(** The file a collection hook makes of a listed object. *)
Definition leafOf {T} {ResT : Resource T} (x : T) : Inode := leaf (content x).

Definition dirName (k : Kind) : string :=
  match k with
  | Service => "services"
  | Deployment => "deployments"
  | Ingress => "ingresses"
  end.

(** The struct of the collection directory of kind [k]. *)
Definition collectionOps (k : Kind) (c : option Clientset) (namespace : string)
  : InodeEmbedder :=
  match k with
  | Service =>
      EmbServices {| svc_clientset := c; svc_namespace := namespace |}
  | Deployment =>
      EmbDeployments {| dep_clientset := c; dep_namespace := namespace |}
  | Ingress =>
      EmbIngress {| ing_clientset := c; ing_namespace := namespace |}
  end.

(** One collection hook, chosen by kind, run on a node that holds
    connection [c] and namespace name [namespace], has children [kids] and
    has seen requests [log]: the result, the children and the requests
    afterwards. *)
Definition outcome {R} (x : Result unit * state Inode R)
  : Result unit * list (string * Inode) * list Request :=
  (fst x, children (snd x), requests (snd x)).

Definition collectionOnAdd (k : Kind) (c : option Clientset)
  (namespace : string) (kids : list (string * Inode)) (log : list Request)
  : Result unit * list (string * Inode) * list Request :=
  match k with
  | Service =>
      outcome (KubernetesServices_OnAdd
                 {| recv := {| svc_clientset := c; svc_namespace := namespace |};
                    children := kids; requests := log |})
  | Deployment =>
      outcome (KubernetesDeployments_OnAdd
                 {| recv := {| dep_clientset := c; dep_namespace := namespace |};
                    children := kids; requests := log |})
  | Ingress =>
      outcome (KubernetesIngress_OnAdd
                 {| recv := {| ing_clientset := c; ing_namespace := namespace |};
                    children := kids; requests := log |})
  end.

(** *** A cluster on which population succeeds *)

(** What the listing of kind [k] in [namespace] answers ([] if it fails). *)
Definition listed (k : Kind) (cs : Clientset) (namespace : string)
  : list (Item k) :=
  match ListItems k cs namespace with
  | inr items => items
  | inl _ => []
  end.

(** The collection hook of kind [k] returns: the listing succeeds, every
    item serializes and has a name. *)
Definition collectionPopulates (k : Kind) (cs : Clientset) (namespace : string)
  : Prop :=
  ListItems k cs namespace = inr (listed k cs namespace)
  /\ Forall (fun x => pretty x = inr (content x)) (listed k cs namespace)
  /\ Forall (fun x => Name x <> EmptyString) (listed k cs namespace).

(** The namespace hook returns: the descriptor serializes and the three
    collections populate. *)
Definition namespacePopulates (cs : Clientset) (ns : Namespace) : Prop :=
  pretty ns = inr (content ns)
  /\ forall k, collectionPopulates k cs (Name ns).

(** The collection directory of kind [k] once populated. *)
Definition collectionTree (k : Kind) (cs : Clientset) (namespace : string)
  : Inode :=
  {| ops := collectionOps k (Some cs) namespace;
     stableAttr := {| saMode := S_IFDIR |};
     kids := register (map (entry leafOf) (listed k cs namespace)) [] |}.

(** The three listings a namespace hook causes, in order. *)
Definition namespaceRequests (namespace : string) : list Request :=
  [ReqList Service namespace; ReqList Deployment namespace;
   ReqList Ingress namespace].

(** The four children a namespace hook makes, in the order it adds them. *)
Definition namespaceChildren (cs : Clientset) (ns : Namespace) (b : bytes)
  : list (string * Inode) :=
  [("namespace.json", leaf b);
   ("services", collectionTree Service cs (Name ns));
   ("deployments", collectionTree Deployment cs (Name ns));
   ("ingresses", collectionTree Ingress cs (Name ns))].

(** The namespace directory once populated. *)
Definition namespaceTree (cs : Clientset) (ns : Namespace) : Inode :=
  {| ops := EmbNamespace {| ns_clientset := Some cs; ns_namespace := ns |};
     stableAttr := {| saMode := S_IFDIR |};
     kids := namespaceChildren cs ns (content ns) |}.

(** All the listings the population of [namespaces] causes. *)
Definition nestedRequests (namespaces : list Namespace) : list Request :=
  flat_map (fun ns => namespaceRequests (Name ns)) namespaces.

(** *** The connection bootstrap *)

(** The path the bootstrap hands to [BuildConfigFromFlags]: the
    [kubeconfig] flag, whose default depends on the home directory. *)
Definition defaultKubeconfig : string :=
  if String.eqb HomeDir EmptyString then EmptyString
  else Join [HomeDir; ".kube"; "config"].

Definition kubeconfigPath : string := flag_String "kubeconfig" defaultKubeconfig.

(** The connection the root lists with: the one it holds if it holds
    one, else the one built from [kubeconfigPath]; and the requests
    building it takes. *)
Definition bootstrap (c : option Clientset) : error + Clientset :=
  match c with
  | Some cs => inr cs
  | None =>
      match BuildConfigFromFlags EmptyString kubeconfigPath with
      | inl err => inl err
      | inr config => NewForConfig config
      end
  end.

Definition bootstrapRequests (c : option Clientset) : list Request :=
  match c with
  | Some _ => []
  | None => [ReqBuildConfig EmptyString kubeconfigPath; ReqNewForConfig]
  end.

(** *** The attribute reply *)

(** What the attribute reply carries once the framework has put the
    inode's number [ino] and file type over what the node answered. *)
Definition getattrReply (n : Inode) (ino : Z) (answer : AttrOut * Z)
  : AttrOut * Z :=
  let (out, errno) := answer in
  if Z.eqb errno 0
  then ({| AttrValid := AttrValid out;
           attr := {| Ino := ino;
                      Size := Size (attr out);
                      Mode := Z.lor (Z.land (Mode (attr out)) 4095)
                                    (saMode (stableAttr n)) |} |},
        errno)
  else answer.

(** *** How a hook may change its node *)

(** [s'] has the children of [s], in place, followed by new ones, and its
    names are distinct if those of [s] were. *)
Definition extends {R} (s s' : state Inode R) : Prop :=
  (exists added, children s' = (children s ++ added)%list)
  /\ (NoDup (map fst (children s)) -> NoDup (map fst (children s'))).

Definition grows {R A} (m : M Inode R A) : Prop :=
  forall s, extends s (snd (m s)).

(** [s'] has the receiver of [s], its log followed by requests that are
    no bootstrap requests, and its children followed by children that
    satisfy [okKid]. *)
Definition frame {R} (okKid : string * Inode -> Prop) (s s' : state Inode R)
  : Prop :=
  recv s' = recv s
  /\ appended (fun q => isBootstrap q = false) (requests s) (requests s')
  /\ appended okKid (children s) (children s').

(** *** What the nodes of the tree are *)

Definition isLeafEntry (en : string * Inode) : Prop :=
  exists data, snd en = leaf data.

(** A child of the directory of namespace [ns]. *)
Definition isNamespaceChild (c : option Clientset) (ns : Namespace)
  (en : string * Inode) : Prop :=
  (fst en = "namespace.json" /\ exists data, snd en = leaf data)
  \/ (exists k,
        fst en = dirName k
        /\ ops (snd en) = collectionOps k c (Name ns)
        /\ stableAttr (snd en) = {| saMode := S_IFDIR |}
        /\ Forall isLeafEntry (kids (snd en))).

(** A child of the root. *)
Definition isNamespaceEntry (c : option Clientset) (en : string * Inode)
  : Prop :=
  exists ns,
    fst en = Name ns
    /\ ops (snd en) = EmbNamespace {| ns_clientset := c; ns_namespace := ns |}
    /\ stableAttr (snd en) = {| saMode := S_IFDIR |}
    /\ Forall (isNamespaceChild c ns) (kids (snd en)).

(** What a node reached by a non-empty [path] from the mount point is,
    when the root's connection is [cs]. *)
Definition layout (cs : Clientset) (path : list string) (n : Inode) : Prop :=
  match path with
  | [] => False
  | [a] =>
      exists ns,
        Name ns = a
        /\ ops n = EmbNamespace {| ns_clientset := Some cs; ns_namespace := ns |}
        /\ stableAttr n = {| saMode := S_IFDIR |}
  | [a; b] =>
      (b = "namespace.json" /\ exists data, n = leaf data)
      \/ (exists k,
            b = dirName k
            /\ ops n = collectionOps k (Some cs) a
            /\ stableAttr n = {| saMode := S_IFDIR |})
  | [a; b; c] => exists data, n = leaf data
  | _ => False
  end.

End K8sFuse.

Section MountCommand.

Context {env : Cluster}.

(** ** [mountCmd.Run] *)

(** [fs.Options]: the one field the command sets. *)
Record Options : Type := { Debug : bool }.

Variable Server : Type.   (* fuse.Server *)

(** [fuse.NewServer] and [WaitMount], the kernel side of [fs.Mount]. *)
Variable NewServer : string -> Inode -> Options -> error + Server.

(** [fs.Mount(dir, root, opts)]: the tree is built first, by the root's
    [OnAdd]; its panic is the caller's. Then the mount is attempted. *)
Definition fs_Mount (dir : string) (root : KubernetesRoot) (opts : Options)
  : Result (error + Server) :=
  match fst (NewNodeFS root) with
  | Panic v => Panic v
  | Ok tree => Ok (NewServer dir tree opts)
  end.

(** How a run of the command ends: blocked in [server.Wait()] on a mounted
    tree, stopped by [log.Fatalf], or stopped by a panic. *)
Inductive Outcome : Type :=
| Waiting (server : Server)
| Fatal (message : string)
| Panicked (v : PanicValue).

Definition newline : string := String (Ascii.ascii_of_nat 10) EmptyString.

Definition mountCmd_Run (args : list string) : Outcome :=
  let opts := {| Debug := false |} in
  match nth_error args 0 with
  | None => Panicked (IndexOutOfRange 0 (length args))
  | Some dir =>
      match fs_Mount dir {| root_clientset := None |} opts with
      | Panic v => Panicked v
      | Ok (inl err) => Fatal ("Mount fail: " ++ err ++ newline)
      | Ok (inr server) => Waiting server
      end
  end.

End MountCommand.

Arguments Waiting {Server} server.
Arguments Fatal {Server} message.
Arguments Panicked {Server} v.

(** Where a path leads in the tree of a mount on cluster [c]; [None]
    also when the mount panics. *)
Definition resolve (c : Cluster) (path : list string) : option Inode :=
  match fst (NewNodeFS (env := c) (Build_KubernetesRoot None)) with
  | Ok tree => walk tree path
  | Panic _ => None
  end.
(** * Properties *)

Section Properties.

Context {env : Cluster}.

Local Open Scope hook_scope.

(** ** Facts about child lists *)

Lemma lookup_seen (name : string) (cs : list (string * Inode)) :
  existsb (String.eqb name) (map fst cs) =
  match lookup name cs with
  | Some _ => true
  | None => false
  end.
Proof.
  induction cs as [|[n c] cs IH]; simpl; [reflexivity|].
  rewrite (String.eqb_sym name n).
  destruct (String.eqb n name); simpl; [reflexivity | exact IH].
Qed.

Lemma seen_In (name : string) (seen : list string) :
  existsb (String.eqb name) seen = true <-> In name seen.
Proof.
  rewrite existsb_exists. split.
  - intros [y [Hy E]]. apply String.eqb_eq in E. now subst.
  - intros H. exists name. split; [assumption | apply String.eqb_refl].
Qed.

Lemma seen_app (name : string) (a b : list string) :
  existsb (String.eqb name) (a ++ b) =
  existsb (String.eqb name) a || existsb (String.eqb name) b.
Proof. apply existsb_app. Qed.

Section Entries.

Variable T : Type.
Context {ResT : Resource T}.
Lemma firstByName_distinct (xs : list T) :
  forall seen,
    NoDup (map Name xs) ->
    (forall x, In x xs -> ~ In (Name x) seen) ->
    firstByName seen xs = xs.
Proof.
  induction xs as [|x xs IH]; intros seen Hnd Hfresh; simpl; [reflexivity|].
  simpl in Hnd. inversion Hnd as [|? ? Hx Hnd']; subst.
  destruct (existsb (String.eqb (Name x)) seen) eqn:E.
  - apply seen_In in E. exfalso. apply (Hfresh x); [now left | exact E].
  - f_equal. apply IH; [exact Hnd'|].
    intros y Hy Hin. apply in_app_or in Hin. destruct Hin as [Hin|[Hin|[]]].
    + apply (Hfresh y); [now right | exact Hin].
    + apply Hx. rewrite Hin. now apply in_map.
Qed.

Lemma firstByName_names (xs : list T) :
  forall seen name,
    In name (map Name (firstByName seen xs)) ->
    ~ In name seen /\ In name (map Name xs).
Proof.
  induction xs as [|x xs IH]; intros seen name; simpl; [tauto|].
  destruct (existsb (String.eqb (Name x)) seen) eqn:E.
  - intros H. apply IH in H. tauto.
  - simpl. intros [H|H].
    + subst. split; [|now left].
      intros Hin. apply seen_In in Hin. congruence.
    + apply IH in H. destruct H as [H1 H2]. split; [|now right].
      intros Hin. apply H1. apply in_or_app. now left.
Qed.

Lemma firstByName_NoDup (xs : list T) :
  forall seen, NoDup (map Name (firstByName seen xs)).
Proof.
  induction xs as [|x xs IH]; intros seen; simpl; [constructor|].
  destruct (existsb (String.eqb (Name x)) seen) eqn:E; [apply IH|].
  simpl. constructor; [|apply IH].
  intros H. apply firstByName_names in H. destruct H as [H _].
  apply H. apply in_or_app. right. now left.
Qed.

Variable node : T -> Inode.

(** The loop of [AddChild(_, _, false)] keeps, in order, the first item of
    every name that was not there before. *)
Lemma register_firsts (xs : list T) :
  forall cs,
    register (map (entry node) xs) cs =
    (cs ++ map (entry node) (firstByName (map fst cs) xs))%list.
Proof.
  unfold register.
  induction xs as [|x xs IH]; intros cs; simpl.
  - now rewrite app_nil_r.
  - unfold addNew at 2. simpl fst.
    rewrite lookup_seen.
    destruct (lookup (Name x) cs) eqn:E.
    + apply IH.
    + rewrite IH, map_app. simpl. now rewrite <- app_assoc.
Qed.

(** Looking a name up among the kept items finds the first item of that
    name in the listing. *)
Lemma lookup_firstByName (xs : list T) :
  forall seen name,
    lookup name (map (entry node) (firstByName seen xs)) =
    if existsb (String.eqb name) seen then None
    else option_map node (find (named name) xs).
Proof.
  induction xs as [|x xs IH]; intros seen name; simpl.
  - now destruct (existsb (String.eqb name) seen).
  - unfold named at 1.
    destruct (existsb (String.eqb (Name x)) seen) eqn:E.
    + rewrite IH.
      destruct (existsb (String.eqb name) seen) eqn:E'; [reflexivity|].
      destruct (String.eqb (Name x) name) eqn:En; [|reflexivity].
      apply String.eqb_eq in En. congruence.
    + simpl. destruct (String.eqb (Name x) name) eqn:En.
      * apply String.eqb_eq in En. subst name. now rewrite E.
      * rewrite IH, seen_app. simpl.
        rewrite (String.eqb_sym name (Name x)), En, orb_false_r.
        reflexivity.
Qed.

End Entries.

Lemma lookup_In (name : string) (ch : Inode) (cs : list (string * Inode)) :
  lookup name cs = Some ch -> In (name, ch) cs.
Proof.
  induction cs as [|[n c] cs IH]; cbn [lookup]; [discriminate|].
  destruct (String.eqb n name) eqn:E.
  - apply String.eqb_eq in E. intros [= ->]. subst. now left.
  - intros H. right. now apply IH.
Qed.

Lemma lookup_absent (name : string) (cs : list (string * Inode)) :
  lookup name cs = None -> ~ In name (map fst cs).
Proof.
  induction cs as [|[n c] cs IH]; cbn [lookup map fst]; [tauto|].
  destruct (String.eqb n name) eqn:E; [discriminate|].
  apply String.eqb_neq in E. intros H [Hn|Hn]; [contradiction|].
  now apply IH.
Qed.

Lemma lookup_entry {T} {ResT : Resource T} (node : T -> Inode)
  (xs : list T) (x : T) :
  NoDup (map Name xs) ->
  In x xs ->
  lookup (Name x) (map (entry node) xs) = Some (node x).
Proof.
  induction xs as [|y xs IH]; intros Hd Hin; [destruct Hin|].
  cbn [map] in Hd. inversion Hd as [|? ? Hy Hd']; subst.
  cbn [map lookup entry]. destruct Hin as [-> | Hin].
  - now rewrite String.eqb_refl.
  - destruct (String.eqb (Name y) (Name x)) eqn:E.
    + apply String.eqb_eq in E. exfalso. apply Hy. rewrite E.
      now apply in_map.
    + now apply IH.
Qed.

Lemma distinct_children {T} {ResT : Resource T} (node : T -> Inode)
  (xs : list T) :
  NoDup (map Name xs) ->
  register (map (entry node) xs) [] = map (entry node) xs.
Proof.
  intros Hd. rewrite register_firsts. cbn [map app].
  rewrite firstByName_distinct; [reflexivity | exact Hd |].
  intros x _ [].
Qed.

Lemma firsts_children {T} {ResT : Resource T} (node : T -> Inode)
  (xs : list T) (cs : list (string * Inode)) :
  cs = register (map (entry node) xs) [] ->
  cs = map (entry node) (firstByName [] xs)
  /\ NoDup (map fst cs)
  /\ (forall name,
        lookup name cs = option_map node (find (named name) xs)).
Proof.
  intros ->. rewrite register_firsts. cbn [map app]. split; [reflexivity|].
  split.
  - rewrite map_map. cbn [entry fst]. apply firstByName_NoDup.
  - intros name. now rewrite lookup_firstByName.
Qed.

Lemma lookup_append (name : string) (cs ds : list (string * Inode)) :
  lookup name (cs ++ ds) =
  match lookup name cs with
  | Some c => Some c
  | None => lookup name ds
  end.
Proof.
  induction cs as [|[n c] cs IH]; cbn [app lookup]; [reflexivity|].
  destruct (String.eqb n name); [reflexivity | exact IH].
Qed.

Lemma addNew_keeps (name : string) (c : Inode) (cs : list (string * Inode))
  (e : string * Inode) :
  lookup name cs = Some c -> lookup name (addNew cs e) = Some c.
Proof.
  intros H. unfold addNew. destruct (lookup (fst e) cs); [exact H|].
  now rewrite lookup_append, H.
Qed.

Lemma addNew_present (cs : list (string * Inode)) (e : string * Inode) :
  exists c, lookup (fst e) (addNew cs e) = Some c.
Proof.
  unfold addNew. destruct (lookup (fst e) cs) as [c|] eqn:E.
  - exists c. exact E.
  - exists (snd e). rewrite lookup_append, E. destruct e as [n ch].
    cbn [lookup fst snd]. now rewrite String.eqb_refl.
Qed.

Lemma register_keeps (new : list (string * Inode)) :
  forall (cs : list (string * Inode)) (name : string) (c : Inode),
    lookup name cs = Some c -> lookup name (register new cs) = Some c.
Proof.
  unfold register. induction new as [|e new IH]; intros cs name c H;
    cbn [fold_left]; [exact H|].
  apply IH. now apply addNew_keeps.
Qed.

Lemma register_present (new : list (string * Inode)) :
  forall (cs : list (string * Inode)) (e : string * Inode),
    In e new -> exists c, lookup (fst e) (register new cs) = Some c.
Proof.
  induction new as [|e0 new IH]; intros cs e Hin; [destruct Hin|].
  change (register (e0 :: new) cs) with (register new (addNew cs e0)).
  destruct Hin as [-> | Hin].
  - destruct (addNew_present cs e) as [c Hc]. exists c.
    now apply register_keeps.
  - now apply IH.
Qed.

Lemma register_noop (new : list (string * Inode)) :
  forall cs : list (string * Inode),
    (forall e, In e new -> exists c, lookup (fst e) cs = Some c) ->
    register new cs = cs.
Proof.
  induction new as [|e new IH]; intros cs H; [reflexivity|].
  change (register (e :: new) cs) with (register new (addNew cs e)).
  destruct (H e (or_introl eq_refl)) as [c Hc].
  unfold addNew. rewrite Hc. apply IH. intros e' He'. apply H. now right.
Qed.

(** Registering the same entries a second time changes nothing. *)
Lemma register_idem (new cs : list (string * Inode)) :
  register new (register new cs) = register new cs.
Proof. apply register_noop. intros e He. now apply register_present. Qed.

(** ** Lists that only grow *)

Lemma appended_refl {X} (P : X -> Prop) (l : list X) : appended P l l.
Proof. exists []. split; [now rewrite app_nil_r | constructor]. Qed.

Lemma appended_trans {X} (P : X -> Prop) (l1 l2 l3 : list X) :
  appended P l1 l2 -> appended P l2 l3 -> appended P l1 l3.
Proof.
  intros (a & -> & Ha) (b & -> & Hb). exists (a ++ b)%list.
  split; [now rewrite app_assoc | now apply Forall_app].
Qed.

Lemma appended_one {X} (P : X -> Prop) (l : list X) (x : X) :
  P x -> appended P l (l ++ [x]).
Proof. intros H. exists [x]. split; [reflexivity | now repeat constructor]. Qed.

Lemma appended_mono {X} (P P' : X -> Prop) (l l' : list X) :
  (forall x, P x -> P' x) -> appended P l l' -> appended P' l l'.
Proof.
  intros H (a & -> & Ha). exists a. split; [reflexivity|].
  eapply Forall_impl; eassumption.
Qed.

Lemma appended_nil {X} (P : X -> Prop) (l : list X) :
  appended P [] l -> Forall P l.
Proof. now intros (a & -> & Ha). Qed.

Lemma appended_built (l l' : list Request) :
  appended (fun q => isBootstrap q = false) l l' ->
  connectionsBuilt l' = connectionsBuilt l.
Proof.
  intros (a & -> & Ha). unfold connectionsBuilt.
  rewrite filter_app, length_app.
  assert (E : filter isNewForConfig a = []).
  { induction Ha as [|q a Hq Ha IH]; [reflexivity|].
    cbn [filter]. destruct q; try discriminate; exact IH. }
  rewrite E. cbn. lia.
Qed.

(** ** Rules for [wp] *)

Section Rules.

Variable R : Type.
Variable A : Type.
Implicit Types (s : state Inode R).
Implicit Types (Q : A -> state Inode R -> Prop).
Implicit Types (E : PanicValue -> state Inode R -> Prop).

Lemma wp_mono (m : M Inode R A) Q Q' E E' s :
  (forall a s', Q a s' -> Q' a s') ->
  (forall v s', E v s' -> E' v s') ->
  wp m Q E s -> wp m Q' E' s.
Proof.
  unfold wp. intros HQ HE. destruct (m s) as [[a|v] s']; auto.
Qed.

Lemma wp_ret (a : A) Q E s : Q a s -> wp (ret a) Q E s.
Proof. exact (fun H => H). Qed.

Lemma wp_panic (v : PanicValue) Q E s : E v s -> wp (panic v) Q E s.
Proof. exact (fun H => H). Qed.

Lemma wp_orPanic (x : error + A) Q E s :
  (forall e, x = inl e -> E (PanicError e) s) ->
  (forall a, x = inr a -> Q a s) ->
  wp (orPanic x) Q E s.
Proof. intros He Ha. destruct x; cbn; auto. Qed.

Lemma wp_bind {B} (m : M Inode R B) (f : B -> M Inode R A) Q E s :
  wp m (fun b s' => wp (f b) Q E s') E s -> wp (bind m f) Q E s.
Proof.
  unfold wp, bind. destruct (m s) as [[b|v] s']; exact (fun H => H).
Qed.

End Rules.

Lemma wp_get_recv {R} (Q : R -> state Inode R -> Prop) E s :
  Q (recv s) s -> wp get_recv Q E s.
Proof. exact (fun H => H). Qed.

Lemma wp_set_recv {R} (r : R) (Q : unit -> state Inode R -> Prop) E s :
  Q tt {| recv := r; children := children s; requests := requests s |} ->
  wp (set_recv r) Q E s.
Proof. exact (fun H => H). Qed.

Lemma wp_request {R} (q : Request) (Q : unit -> state Inode R -> Prop) E s :
  Q tt {| recv := recv s; children := children s;
          requests := requests s ++ [q] |} ->
  wp (request q) Q E s.
Proof. exact (fun H => H). Qed.

Lemma wp_deref {R} (c : option Clientset)
  (Q : Clientset -> state Inode R -> Prop) E s :
  (c = None -> E NilPointerDereference s) ->
  (forall cs, c = Some cs -> Q cs s) ->
  wp (deref c) Q E s.
Proof. intros Hn Hs. destruct c; cbn; auto. Qed.

Lemma wp_AddChild {R} (name : string) (ch : Inode)
  (Q : bool -> state Inode R -> Prop) E s :
  E EmptyInodeName s ->
  Q false s ->
  Q true {| recv := recv s; children := children s ++ [(name, ch)];
            requests := requests s |} ->
  wp (AddChild name ch false) Q E s.
Proof.
  intros He Hf Ht. unfold wp, AddChild.
  destruct (String.eqb name EmptyString); [exact He|].
  destruct (lookup name (children s)); assumption.
Qed.

Lemma wp_forRange {R X} (I : state Inode R -> Prop) (body : X -> Hook R)
  (E : PanicValue -> state Inode R -> Prop) (xs : list X) :
  (forall x s, I s -> wp (body x) (fun _ s' => I s') E s) ->
  forall s, I s -> wp (forRange xs body) (fun _ s' => I s') E s.
Proof.
  intros Hb. induction xs as [|x xs IH]; intros s Hs; cbn [forRange].
  - exact Hs.
  - apply wp_bind. eapply wp_mono; [| |apply Hb; exact Hs]; cbn; auto.
Qed.

(** The rule of [NewPersistentInode]: what the new node's own hook
    establishes for the new node holds of the inode returned. *)
Lemma wp_NewPersistentInode {R C} {Em : Embeds C} (node : C) (id : StableAttr)
  (Q : Inode -> state Inode R -> Prop) E (s : state Inode R) :
  match onAdd with
  | None =>
      Q {| ops := embedder node; stableAttr := fileType id; kids := [] |} s
  | Some OnAdd =>
      wp OnAdd
        (fun _ c' =>
           Q {| ops := embedder (recv c'); stableAttr := fileType id;
                kids := children c' |}
             {| recv := recv s; children := children s;
                requests := requests c' |})
        (fun v c' =>
           E v {| recv := recv s; children := children s;
                  requests := requests c' |})
        {| recv := node; children := []; requests := requests s |}
  end ->
  wp (NewPersistentInode node id) Q E s.
Proof.
  unfold wp, NewPersistentInode. destruct onAdd as [h|]; [|exact (fun H => H)].
  destruct (h _) as [[[]|v] c']; exact (fun H => H).
Qed.

(** What [wp] says of one run. *)
Lemma wp_run {R A} (m : M Inode R A) Q E (s : state Inode R) :
  wp m Q E s ->
  match fst (m s) with
  | Ok a => Q a (snd (m s))
  | Panic v => E v (snd (m s))
  end.
Proof. unfold wp. destruct (m s) as [[a|v] s']; exact (fun H => H). Qed.

(** ** The loop of the collection hooks *)

Lemma NewPersistentInode_file {R} (b : bytes) (s : state Inode R) :
  NewPersistentInode
    {| Data := b; Attr := {| Ino := 0; Size := 0; Mode := o644 |} |}
    {| saMode := 0 |} s =
  (Ok (leaf b), s).
Proof. reflexivity. Qed.

Lemma addLeaf_run {T} {ResT : Resource T} {R} (x : T) (s : state Inode R) :
  addLeaf x s =
  match pretty x with
  | inl e => (Panic (PanicError e), s)
  | inr b =>
      match AddChild (Name x) (leaf b) false s with
      | (Ok _, s') => (Ok tt, s')
      | (Panic v, s') => (Panic v, s')
      end
  end.
Proof.
  unfold addLeaf, pretty, bind.
  destruct (MarshalIndent x EmptyString " ") as [e|b]; cbn [orPanic];
    [reflexivity|].
  cbn [ret]. rewrite NewPersistentInode_file. reflexivity.
Qed.

Lemma forRange_addLeaf {T} {ResT : Resource T} {R} (xs : list T) :
  forall s : state Inode R,
    Forall (fun x => pretty x = inr (content x)) xs ->
    Forall (fun x => Name x <> EmptyString) xs ->
    forRange xs addLeaf s =
    (Ok tt, {| recv := recv s;
               children := register (map (entry leafOf) xs) (children s);
               requests := requests s |}).
Proof.
  induction xs as [|x xs IH]; intros s Hm Hn.
  - destruct s; reflexivity.
  - inversion Hm as [|? ? Hx Hm']; inversion Hn as [|? ? Hnx Hn']; subst.
    apply String.eqb_neq in Hnx.
    cbn [forRange]. unfold bind at 1. rewrite addLeaf_run, Hx.
    unfold AddChild. rewrite Hnx.
    cbn [register map fold_left]. unfold addNew at 2. cbn [entry fst].
    destruct (lookup (Name x) (children s)) eqn:E.
    + rewrite IH by assumption. reflexivity.
    + rewrite IH by assumption. reflexivity.
Qed.

Lemma forRange_app {R X} (body : X -> Hook R) (xs ys : list X)
  (s : state Inode R) :
  forRange (xs ++ ys) body s =
  match forRange xs body s with
  | (Ok _, s1) => forRange ys body s1
  | (Panic v, s1) => (Panic v, s1)
  end.
Proof.
  revert s. induction xs as [|x xs IH]; intros s; cbn [app forRange].
  - reflexivity.
  - unfold bind. destruct (body x s) as [[[]|v] s1]; [apply IH|].
    reflexivity.
Qed.

(** A loop of [addLeaf] that meets an item that does not serialize stops
    there, with the items before it registered. *)
Lemma forRange_addLeaf_stops {T} {ResT : Resource T} {R}
  (pre post : list T) (x : T) (e : error) (s : state Inode R) :
  Forall (fun y => pretty y = inr (content y)) pre ->
  Forall (fun y => Name y <> EmptyString) pre ->
  pretty x = inl e ->
  forRange (pre ++ x :: post) addLeaf s =
  (Panic (PanicError e),
   {| recv := recv s;
      children := register (map (entry leafOf) pre) (children s);
      requests := requests s |}).
Proof.
  intros Hm Hn Hx. rewrite forRange_app, forRange_addLeaf by assumption.
  cbn [forRange]. unfold bind at 1. now rewrite addLeaf_run, Hx.
Qed.

(** In every outcome a loop of [addLeaf] leaves the receiver and the log
    alone and adds only leaf files; it never panics on an index. *)
Lemma wp_addLeaf {T} {ResT : Resource T} {R} (x : T) (s0 s : state Inode R) :
  frame isLeafEntry s0 s ->
  wp (addLeaf x)
    (fun _ s' => frame isLeafEntry s0 s')
    (fun v s' => frame isLeafEntry s0 s' /\ hookPanic v) s.
Proof.
  intros (Hr & Hq & Hc). unfold wp. rewrite addLeaf_run.
  destruct (pretty x) as [e|b]; [now repeat split|].
  unfold AddChild. destruct (String.eqb (Name x) EmptyString);
    [now repeat split|].
  destruct (lookup (Name x) (children s)); [now repeat split|].
  repeat split; cbn [recv requests children]; try assumption.
  eapply appended_trans; [exact Hc|]. apply appended_one. now exists b.
Qed.

Lemma frame_refl {R} (okKid : string * Inode -> Prop) (s : state Inode R) :
  frame okKid s s.
Proof. repeat split; apply appended_refl. Qed.

Lemma frame_trans {R} (okKid : string * Inode -> Prop)
  (s1 s2 s3 : state Inode R) :
  frame okKid s1 s2 -> frame okKid s2 s3 -> frame okKid s1 s3.
Proof.
  intros (Hr & Hq & Hc) (Hr' & Hq' & Hc'). repeat split.
  - congruence.
  - eapply appended_trans; eassumption.
  - eapply appended_trans; eassumption.
Qed.

Lemma wp_forRange_addLeaf {T} {ResT : Resource T} {R} (xs : list T)
  (s0 s : state Inode R) :
  frame isLeafEntry s0 s ->
  wp (forRange xs addLeaf)
    (fun _ s' => frame isLeafEntry s0 s')
    (fun v s' => frame isLeafEntry s0 s' /\ hookPanic v) s.
Proof.
  apply (wp_forRange (fun s' => frame isLeafEntry s0 s')).
  intros x s1 H. now apply wp_addLeaf.
Qed.

(** The log of a loop of [addLeaf] is the one it started with. *)
Lemma forRange_addLeaf_log {T} {ResT : Resource T} {R} (xs : list T) :
  forall s : state Inode R,
    requests (snd (forRange xs addLeaf s)) = requests s.
Proof.
  induction xs as [|x xs IH]; intros s; cbn [forRange]; [reflexivity|].
  unfold bind. rewrite addLeaf_run.
  destruct (pretty x) as [e|b]; [reflexivity|].
  unfold AddChild. destruct (String.eqb (Name x) EmptyString); [reflexivity|].
  destruct (lookup (Name x) (children s)); now rewrite IH.
Qed.

(** ** The collection directories *)

Lemma services_listed (cs : Clientset) (namespace : string)
  (items : list (Item Service)) (kids : list (string * Inode))
  (log : list Request) :
  ListItems Service cs namespace = inr items ->
  KubernetesServices_OnAdd
    {| recv := {| svc_clientset := Some cs; svc_namespace := namespace |};
       children := kids; requests := log |} =
  forRange items addLeaf
    {| recv := {| svc_clientset := Some cs; svc_namespace := namespace |};
       children := kids; requests := log ++ [ReqList Service namespace] |}.
Proof.
  intros Hl. unfold KubernetesServices_OnAdd, bind at 1 2 3 4, get_recv, request.
  cbn [recv svc_clientset svc_namespace deref ret children requests].
  rewrite Hl. reflexivity.
Qed.

Lemma deployments_listed (cs : Clientset) (namespace : string)
  (items : list (Item Deployment)) (kids : list (string * Inode))
  (log : list Request) :
  ListItems Deployment cs namespace = inr items ->
  KubernetesDeployments_OnAdd
    {| recv := {| dep_clientset := Some cs; dep_namespace := namespace |};
       children := kids; requests := log |} =
  forRange items addLeaf
    {| recv := {| dep_clientset := Some cs; dep_namespace := namespace |};
       children := kids; requests := log ++ [ReqList Deployment namespace] |}.
Proof.
  intros Hl.
  unfold KubernetesDeployments_OnAdd, bind at 1 2 3 4, get_recv, request.
  cbn [recv dep_clientset dep_namespace deref ret children requests].
  rewrite Hl. reflexivity.
Qed.

Lemma ingresses_listed (cs : Clientset) (namespace : string)
  (items : list (Item Ingress)) (kids : list (string * Inode))
  (log : list Request) :
  ListItems Ingress cs namespace = inr items ->
  KubernetesIngress_OnAdd
    {| recv := {| ing_clientset := Some cs; ing_namespace := namespace |};
       children := kids; requests := log |} =
  forRange items addLeaf
    {| recv := {| ing_clientset := Some cs; ing_namespace := namespace |};
       children := kids; requests := log ++ [ReqList Ingress namespace] |}.
Proof.
  intros Hl. unfold KubernetesIngress_OnAdd, bind at 1 2 3 4, get_recv, request.
  cbn [recv ing_clientset ing_namespace deref ret children requests].
  rewrite Hl. reflexivity.
Qed.

Lemma services_run (cs : Clientset) (namespace : string)
  (items : list (Item Service)) (kids : list (string * Inode))
  (log : list Request) :
  ListItems Service cs namespace = inr items ->
  Forall (fun x => pretty x = inr (content x)) items ->
  Forall (fun x => Name x <> EmptyString) items ->
  KubernetesServices_OnAdd
    {| recv := {| svc_clientset := Some cs; svc_namespace := namespace |};
       children := kids; requests := log |} =
  (Ok tt,
   {| recv := {| svc_clientset := Some cs; svc_namespace := namespace |};
      children := register (map (entry leafOf) items) kids;
      requests := log ++ [ReqList Service namespace] |}).
Proof.
  intros Hl Hm Hn. rewrite (@services_listed _ _ _ kids log Hl).
  now rewrite forRange_addLeaf.
Qed.

Lemma deployments_run (cs : Clientset) (namespace : string)
  (items : list (Item Deployment)) (kids : list (string * Inode))
  (log : list Request) :
  ListItems Deployment cs namespace = inr items ->
  Forall (fun x => pretty x = inr (content x)) items ->
  Forall (fun x => Name x <> EmptyString) items ->
  KubernetesDeployments_OnAdd
    {| recv := {| dep_clientset := Some cs; dep_namespace := namespace |};
       children := kids; requests := log |} =
  (Ok tt,
   {| recv := {| dep_clientset := Some cs; dep_namespace := namespace |};
      children := register (map (entry leafOf) items) kids;
      requests := log ++ [ReqList Deployment namespace] |}).
Proof.
  intros Hl Hm Hn. rewrite (@deployments_listed _ _ _ kids log Hl).
  now rewrite forRange_addLeaf.
Qed.

Lemma ingresses_run (cs : Clientset) (namespace : string)
  (items : list (Item Ingress)) (kids : list (string * Inode))
  (log : list Request) :
  ListItems Ingress cs namespace = inr items ->
  Forall (fun x => pretty x = inr (content x)) items ->
  Forall (fun x => Name x <> EmptyString) items ->
  KubernetesIngress_OnAdd
    {| recv := {| ing_clientset := Some cs; ing_namespace := namespace |};
       children := kids; requests := log |} =
  (Ok tt,
   {| recv := {| ing_clientset := Some cs; ing_namespace := namespace |};
      children := register (map (entry leafOf) items) kids;
      requests := log ++ [ReqList Ingress namespace] |}).
Proof.
  intros Hl Hm Hn. rewrite (@ingresses_listed _ _ _ kids log Hl).
  now rewrite forRange_addLeaf.
Qed.

Lemma collection_run (k : Kind) (cs : Clientset) (namespace : string)
  (items : list (Item k)) (kids : list (string * Inode)) (log : list Request) :
  ListItems k cs namespace = inr items ->
  Forall (fun x => pretty x = inr (content x)) items ->
  Forall (fun x => Name x <> EmptyString) items ->
  collectionOnAdd k (Some cs) namespace kids log =
  (Ok tt, register (map (entry leafOf) items) kids,
   (log ++ [ReqList k namespace])%list).
Proof.
  intros Hl Hm Hn. destruct k; unfold collectionOnAdd.
  - now rewrite (@services_run _ _ _ kids log Hl Hm Hn).
  - now rewrite (@deployments_run _ _ _ kids log Hl Hm Hn).
  - now rewrite (@ingresses_run _ _ _ kids log Hl Hm Hn).
Qed.

(** C2. Population of a collection directory of any kind, on a new node,
    when the listing succeeds with items of distinct, non-empty names that
    all serialize: the hook sends the one listing request, returns
    normally, and the children are, in the order of the listing, one entry
    per item, under the item's name, a regular file of mode 0644 whose
    content is the item's serialization. For the empty listing it returns
    normally with no child. *)
Theorem collection_population (k : Kind) (cs : Clientset) (namespace : string)
  (items : list (Item k)) (log : list Request) :
  ListItems k cs namespace = inr items ->
  Forall (fun x => pretty x = inr (content x)) items ->
  Forall (fun x => Name x <> EmptyString) items ->
  NoDup (map Name items) ->
  collectionOnAdd k (Some cs) namespace [] log =
  (Ok tt,
   map (fun x =>
          (Name x,
           {| ops := EmbFile {| Data := content x;
                                Attr := {| Ino := 0; Size := 0; Mode := o644 |} |};
              stableAttr := {| saMode := S_IFREG |};
              kids := [] |})) items,
   (log ++ [ReqList k namespace])%list)
  /\ (items = [] ->
      collectionOnAdd k (Some cs) namespace [] log =
      (Ok tt, [], (log ++ [ReqList k namespace])%list)).
Proof.
  intros Hl Hm Hn Hd.
  assert (E : collectionOnAdd k (Some cs) namespace [] log =
              (Ok tt, map (entry leafOf) items,
               (log ++ [ReqList k namespace])%list)).
  { rewrite (@collection_run _ _ _ _ [] log Hl Hm Hn), register_firsts.
    cbn [map app]. rewrite firstByName_distinct; [reflexivity | exact Hd |].
    intros x _ []. }
  split.
  - exact E.
  - intros ->. exact E.
Qed.

(** ** Failing listings *)

Lemma collection_list_error (k : Kind) (cs : Clientset) (namespace : string)
  (e : error) (kids : list (string * Inode)) (log : list Request) :
  ListItems k cs namespace = inl e ->
  collectionOnAdd k (Some cs) namespace kids log =
  (Panic (PanicError e), kids, (log ++ [ReqList k namespace])%list).
Proof.
  intros Hl.
  destruct k; unfold collectionOnAdd;
    [ unfold KubernetesServices_OnAdd
    | unfold KubernetesDeployments_OnAdd
    | unfold KubernetesIngress_OnAdd ];
    unfold outcome, bind, get_recv, request;
    cbn [recv deref ret svc_clientset dep_clientset ing_clientset
         svc_namespace dep_namespace ing_namespace children requests];
    rewrite Hl; reflexivity.
Qed.

(** What a collection hook does to its node, in every outcome. *)
Lemma services_summary (s : state Inode KubernetesServices) :
  wp KubernetesServices_OnAdd
    (fun _ s' => frame isLeafEntry s s')
    (fun v s' => frame isLeafEntry s s' /\ hookPanic v) s
  /\ requests (snd (KubernetesServices_OnAdd s)) =
     match svc_clientset (recv s) with
     | Some _ => (requests s ++ [ReqList Service (svc_namespace (recv s))])%list
     | None => requests s
     end.
Proof.
  unfold wp, KubernetesServices_OnAdd, bind, get_recv, request.
  destruct (svc_clientset (recv s)) as [cs|]; cbn [deref ret panic];
    [|split; [split; [apply frame_refl | exact I] | reflexivity]].
  cbn [recv children requests].
  destruct (ListItems Service cs (svc_namespace (recv s))) as [e|items];
    cbn [orPanic ret panic snd requests].
  - split; [|reflexivity]. split; [|exact I]. repeat split; cbn.
    + now apply appended_one.
    + apply appended_refl.
  - match goal with
    | |- context [forRange ?xs ?body ?s0] =>
        change (forRange xs body s0) with (forRange xs addLeaf s0);
        pose proof (@wp_forRange_addLeaf _ _ _ xs s s0) as W;
        pose proof (forRange_addLeaf_log xs s0) as L
    end.
    split; [|exact L]. apply W. repeat split; cbn.
    + now apply appended_one.
    + apply appended_refl.
Qed.

Lemma deployments_summary (s : state Inode KubernetesDeployments) :
  wp KubernetesDeployments_OnAdd
    (fun _ s' => frame isLeafEntry s s')
    (fun v s' => frame isLeafEntry s s' /\ hookPanic v) s
  /\ requests (snd (KubernetesDeployments_OnAdd s)) =
     match dep_clientset (recv s) with
     | Some _ =>
         (requests s ++ [ReqList Deployment (dep_namespace (recv s))])%list
     | None => requests s
     end.
Proof.
  unfold wp, KubernetesDeployments_OnAdd, bind, get_recv, request.
  destruct (dep_clientset (recv s)) as [cs|]; cbn [deref ret panic];
    [|split; [split; [apply frame_refl | exact I] | reflexivity]].
  cbn [recv children requests].
  destruct (ListItems Deployment cs (dep_namespace (recv s))) as [e|items];
    cbn [orPanic ret panic snd requests].
  - split; [|reflexivity]. split; [|exact I]. repeat split; cbn.
    + now apply appended_one.
    + apply appended_refl.
  - match goal with
    | |- context [forRange ?xs ?body ?s0] =>
        change (forRange xs body s0) with (forRange xs addLeaf s0);
        pose proof (@wp_forRange_addLeaf _ _ _ xs s s0) as W;
        pose proof (forRange_addLeaf_log xs s0) as L
    end.
    split; [|exact L]. apply W. repeat split; cbn.
    + now apply appended_one.
    + apply appended_refl.
Qed.

Lemma ingresses_summary (s : state Inode KubernetesIngress) :
  wp KubernetesIngress_OnAdd
    (fun _ s' => frame isLeafEntry s s')
    (fun v s' => frame isLeafEntry s s' /\ hookPanic v) s
  /\ requests (snd (KubernetesIngress_OnAdd s)) =
     match ing_clientset (recv s) with
     | Some _ => (requests s ++ [ReqList Ingress (ing_namespace (recv s))])%list
     | None => requests s
     end.
Proof.
  unfold wp, KubernetesIngress_OnAdd, bind, get_recv, request.
  destruct (ing_clientset (recv s)) as [cs|]; cbn [deref ret panic];
    [|split; [split; [apply frame_refl | exact I] | reflexivity]].
  cbn [recv children requests].
  destruct (ListItems Ingress cs (ing_namespace (recv s))) as [e|items];
    cbn [orPanic ret panic snd requests].
  - split; [|reflexivity]. split; [|exact I]. repeat split; cbn.
    + now apply appended_one.
    + apply appended_refl.
  - match goal with
    | |- context [forRange ?xs ?body ?s0] =>
        change (forRange xs body s0) with (forRange xs addLeaf s0);
        pose proof (@wp_forRange_addLeaf _ _ _ xs s s0) as W;
        pose proof (forRange_addLeaf_log xs s0) as L
    end.
    split; [|exact L]. apply W. repeat split; cbn.
    + now apply appended_one.
    + apply appended_refl.
Qed.

(** ** Creating a directory runs its hook *)

Lemma NewPersistentInode_ok {R C} {Em : Embeds C} (h : Hook C) (node : C)
  (id : StableAttr) (s : state Inode R) (c' : state Inode C) :
  onAdd = Some h ->
  h {| recv := node; children := []; requests := requests s |} = (Ok tt, c') ->
  NewPersistentInode node id s =
  (Ok {| ops := embedder (recv c'); stableAttr := fileType id;
         kids := children c' |},
   {| recv := recv s; children := children s; requests := requests c' |}).
Proof.
  intros Ho Hh. unfold NewPersistentInode. now rewrite Ho, Hh.
Qed.

Lemma NewPersistentInode_panics {R C} {Em : Embeds C} (h : Hook C) (node : C)
  (id : StableAttr) (s : state Inode R) (v : PanicValue)
  (c' : state Inode C) :
  onAdd = Some h ->
  h {| recv := node; children := []; requests := requests s |} = (Panic v, c') ->
  NewPersistentInode node id s =
  (Panic v,
   {| recv := recv s; children := children s; requests := requests c' |}).
Proof.
  intros Ho Hh. unfold NewPersistentInode. now rewrite Ho, Hh.
Qed.

Lemma new_services {R} (cs : Clientset) (namespace : string)
  (s : state Inode R) :
  collectionPopulates Service cs namespace ->
  NewPersistentInode
    {| svc_clientset := Some cs; svc_namespace := namespace |}
    {| saMode := S_IFDIR |} s =
  (Ok (collectionTree Service cs namespace),
   {| recv := recv s; children := children s;
      requests := requests s ++ [ReqList Service namespace] |}).
Proof.
  intros (Hl & Hm & Hn).
  unfold NewPersistentInode. cbn [onAdd Embeds_KubernetesServices].
  now rewrite (@services_run _ _ _ [] (requests s) Hl Hm Hn).
Qed.

Lemma new_deployments {R} (cs : Clientset) (namespace : string)
  (s : state Inode R) :
  collectionPopulates Deployment cs namespace ->
  NewPersistentInode
    {| dep_clientset := Some cs; dep_namespace := namespace |}
    {| saMode := S_IFDIR |} s =
  (Ok (collectionTree Deployment cs namespace),
   {| recv := recv s; children := children s;
      requests := requests s ++ [ReqList Deployment namespace] |}).
Proof.
  intros (Hl & Hm & Hn).
  unfold NewPersistentInode. cbn [onAdd Embeds_KubernetesDeployments].
  now rewrite (@deployments_run _ _ _ [] (requests s) Hl Hm Hn).
Qed.

Lemma new_ingresses {R} (cs : Clientset) (namespace : string)
  (s : state Inode R) :
  collectionPopulates Ingress cs namespace ->
  NewPersistentInode
    {| ing_clientset := Some cs; ing_namespace := namespace |}
    {| saMode := S_IFDIR |} s =
  (Ok (collectionTree Ingress cs namespace),
   {| recv := recv s; children := children s;
      requests := requests s ++ [ReqList Ingress namespace] |}).
Proof.
  intros (Hl & Hm & Hn).
  unfold NewPersistentInode. cbn [onAdd Embeds_KubernetesIngress].
  now rewrite (@ingresses_run _ _ _ [] (requests s) Hl Hm Hn).
Qed.

Lemma AddChild_adds {R} (name : string) (ch : Inode) (r : R)
  (cs : list (string * Inode)) (log : list Request) :
  name <> EmptyString ->
  exists b,
    AddChild name ch false {| recv := r; children := cs; requests := log |} =
    (Ok b, {| recv := r; children := addNew cs (name, ch);
              requests := log |}).
Proof.
  intros Hn. apply String.eqb_neq in Hn. unfold AddChild, addNew.
  rewrite Hn. cbn [children fst recv requests].
  destruct (lookup name cs); [now exists false | now exists true].
Qed.

Lemma AddChild_taken {R} (name : string) (ch ch' : Inode) (s : state Inode R) :
  name <> EmptyString ->
  lookup name (children s) = Some ch' ->
  AddChild name ch false s = (Ok false, s).
Proof.
  intros Hn Hl. apply String.eqb_neq in Hn.
  unfold AddChild. now rewrite Hn, Hl.
Qed.

(** ** The namespace directory *)

Ltac add_child name :=
  match goal with
  | |- context [AddChild name ?ch false
                  {| recv := ?r; children := ?k; requests := ?l |}] =>
      let b := fresh "b" in
      let E := fresh "E" in
      destruct (@AddChild_adds _ name ch r k l) as [b E];
      [discriminate|]; rewrite E; clear E b
  end.

(** A namespace hook on a connected node whose descriptor serializes and
    whose three collections populate, whatever children the node has. *)
Lemma namespace_run_on (cs : Clientset) (ns : Namespace) (b : bytes)
  (kids0 : list (string * Inode)) (log : list Request) :
  pretty ns = inr b ->
  (forall k, collectionPopulates k cs (Name ns)) ->
  KubernetesNamespace_OnAdd
    {| recv := {| ns_clientset := Some cs; ns_namespace := ns |};
       children := kids0; requests := log |} =
  (Ok tt,
   {| recv := {| ns_clientset := Some cs; ns_namespace := ns |};
      children := register (namespaceChildren cs ns b) kids0;
      requests := log ++ namespaceRequests (Name ns) |}).
Proof.
  intros Hb Hp. unfold pretty in Hb.
  unfold KubernetesNamespace_OnAdd.
  unfold bind at 1. unfold get_recv. cbn [recv ns_namespace ns_clientset].
  unfold bind at 1. rewrite Hb. cbn [orPanic ret].
  unfold bind at 1. rewrite NewPersistentInode_file.
  unfold bind at 1. add_child "namespace.json".
  unfold bind at 1. rewrite (new_services _ (Hp Service)).
  cbn [recv children requests].
  unfold bind at 1. add_child "services".
  unfold bind at 1. rewrite (new_deployments _ (Hp Deployment)).
  cbn [recv children requests].
  unfold bind at 1. add_child "deployments".
  unfold bind at 1. rewrite (new_ingresses _ (Hp Ingress)).
  cbn [recv children requests].
  unfold bind at 1. add_child "ingresses".
  cbn [ret]. unfold namespaceRequests. rewrite <- !app_assoc. reflexivity.
Qed.

(** C1. Population of a namespace directory on a new node, when the
    descriptor serializes to [b], the node holds a connection and the
    three collections populate (their listings succeed, with items that
    serialize and have a name): it returns normally and leaves exactly
    four children, in this order: the file [namespace.json] with mode
    0644 holding [b], then the directories [services], [deployments] and
    [ingresses], each the collection node of its kind holding this node's
    connection and this namespace's name, with the files of its listing
    under it. The requests are the three listings. *)
Theorem namespace_population (cs : Clientset) (ns : Namespace)
  (b : bytes) (log : list Request) :
  pretty ns = inr b ->
  (forall k, collectionPopulates k cs (Name ns)) ->
  KubernetesNamespace_OnAdd
    {| recv := {| ns_clientset := Some cs; ns_namespace := ns |};
       children := []; requests := log |} =
  (Ok tt,
   {| recv := {| ns_clientset := Some cs; ns_namespace := ns |};
      children :=
        [("namespace.json",
          {| ops := EmbFile {| Data := b;
                               Attr := {| Ino := 0; Size := 0; Mode := o644 |} |};
             stableAttr := {| saMode := S_IFREG |};
             kids := [] |});
         ("services",
          {| ops := EmbServices {| svc_clientset := Some cs;
                                   svc_namespace := Name ns |};
             stableAttr := {| saMode := S_IFDIR |};
             kids := register
                       (map (entry leafOf) (listed Service cs (Name ns))) [] |});
         ("deployments",
          {| ops := EmbDeployments {| dep_clientset := Some cs;
                                      dep_namespace := Name ns |};
             stableAttr := {| saMode := S_IFDIR |};
             kids := register
                       (map (entry leafOf) (listed Deployment cs (Name ns)))
                       [] |});
         ("ingresses",
          {| ops := EmbIngress {| ing_clientset := Some cs;
                                  ing_namespace := Name ns |};
             stableAttr := {| saMode := S_IFDIR |};
             kids := register
                       (map (entry leafOf) (listed Ingress cs (Name ns))) [] |})];
      requests := log ++ [ReqList Service (Name ns);
                          ReqList Deployment (Name ns);
                          ReqList Ingress (Name ns)] |}).
Proof.
  intros Hb Hp. rewrite (@namespace_run_on cs ns b [] log Hb Hp).
  reflexivity.
Qed.

(** ** Every outcome of the namespace hook *)

Lemma wp_seq {R A B} (m : M Inode R B) (f : B -> M Inode R A)
  (P : B -> state Inode R -> Prop) (Q : A -> state Inode R -> Prop)
  (E : PanicValue -> state Inode R -> Prop) (s : state Inode R) :
  wp m P E s ->
  (forall b s', P b s' -> wp (f b) Q E s') ->
  wp (bind m f) Q E s.
Proof.
  intros Hm Hf. apply wp_bind. eapply wp_mono; [| |exact Hm]; cbn; auto.
Qed.

Lemma wp_AddChild_frame {R} (okKid : string * Inode -> Prop) (name : string)
  (ch : Inode) (s0 s : state Inode R) :
  frame okKid s0 s ->
  okKid (name, ch) ->
  wp (AddChild name ch false)
    (fun _ s' => frame okKid s0 s')
    (fun v s' => frame okKid s0 s' /\ hookPanic v) s.
Proof.
  intros F Hk. apply wp_AddChild; [now split | exact F |].
  destruct F as (Hr & Hq & Hc). repeat split; cbn [recv requests children];
    try assumption.
  eapply appended_trans; [exact Hc|]. now apply appended_one.
Qed.

(** The state of the parent after a child's hook has run on the child:
    only the log has moved. *)
Lemma frame_after_child {R C} (okKid okKid' : string * Inode -> Prop)
  (node : C) (s0 s : state Inode R) (c' : state Inode C) :
  frame okKid s0 s ->
  frame okKid' {| recv := node; children := []; requests := requests s |} c' ->
  frame okKid s0
    {| recv := recv s; children := children s; requests := requests c' |}.
Proof.
  intros (Hr & Hq & Hc) (_ & Hq' & _). repeat split; cbn [recv requests children];
    try assumption.
  eapply appended_trans; [exact Hq | exact Hq'].
Qed.

Lemma wp_new_services {R} (okKid : string * Inode -> Prop)
  (c : option Clientset) (namespace : string) (s0 s : state Inode R) :
  frame okKid s0 s ->
  wp (NewPersistentInode
        {| svc_clientset := c; svc_namespace := namespace |}
        {| saMode := S_IFDIR |})
    (fun n s' =>
       frame okKid s0 s'
       /\ ops n = collectionOps Service c namespace
       /\ stableAttr n = {| saMode := S_IFDIR |}
       /\ Forall isLeafEntry (kids n))
    (fun v s' => frame okKid s0 s' /\ hookPanic v) s.
Proof.
  intros F. apply wp_NewPersistentInode. cbn [onAdd Embeds_KubernetesServices].
  eapply wp_mono; [| |apply services_summary].
  - intros u c' Fc. split; [exact (frame_after_child F Fc)|].
    destruct Fc as (Hr & _ & Hc). cbn [ops stableAttr kids].
    rewrite Hr. repeat split. now apply appended_nil.
  - intros v c' (Fc & Hv). split; [exact (frame_after_child F Fc) | exact Hv].
Qed.

Lemma wp_new_deployments {R} (okKid : string * Inode -> Prop)
  (c : option Clientset) (namespace : string) (s0 s : state Inode R) :
  frame okKid s0 s ->
  wp (NewPersistentInode
        {| dep_clientset := c; dep_namespace := namespace |}
        {| saMode := S_IFDIR |})
    (fun n s' =>
       frame okKid s0 s'
       /\ ops n = collectionOps Deployment c namespace
       /\ stableAttr n = {| saMode := S_IFDIR |}
       /\ Forall isLeafEntry (kids n))
    (fun v s' => frame okKid s0 s' /\ hookPanic v) s.
Proof.
  intros F. apply wp_NewPersistentInode.
  cbn [onAdd Embeds_KubernetesDeployments].
  eapply wp_mono; [| |apply deployments_summary].
  - intros u c' Fc. split; [exact (frame_after_child F Fc)|].
    destruct Fc as (Hr & _ & Hc). cbn [ops stableAttr kids].
    rewrite Hr. repeat split. now apply appended_nil.
  - intros v c' (Fc & Hv). split; [exact (frame_after_child F Fc) | exact Hv].
Qed.

Lemma wp_new_ingresses {R} (okKid : string * Inode -> Prop)
  (c : option Clientset) (namespace : string) (s0 s : state Inode R) :
  frame okKid s0 s ->
  wp (NewPersistentInode
        {| ing_clientset := c; ing_namespace := namespace |}
        {| saMode := S_IFDIR |})
    (fun n s' =>
       frame okKid s0 s'
       /\ ops n = collectionOps Ingress c namespace
       /\ stableAttr n = {| saMode := S_IFDIR |}
       /\ Forall isLeafEntry (kids n))
    (fun v s' => frame okKid s0 s' /\ hookPanic v) s.
Proof.
  intros F. apply wp_NewPersistentInode. cbn [onAdd Embeds_KubernetesIngress].
  eapply wp_mono; [| |apply ingresses_summary].
  - intros u c' Fc. split; [exact (frame_after_child F Fc)|].
    destruct Fc as (Hr & _ & Hc). cbn [ops stableAttr kids].
    rewrite Hr. repeat split. now apply appended_nil.
  - intros v c' (Fc & Hv). split; [exact (frame_after_child F Fc) | exact Hv].
Qed.

(** In every outcome the namespace hook keeps its receiver, sends no
    bootstrap request and adds only children of its own shape; it never
    panics on an index. *)
Lemma namespace_summary (s : state Inode KubernetesNamespace) :
  wp KubernetesNamespace_OnAdd
    (fun _ s' =>
       frame (isNamespaceChild (ns_clientset (recv s)) (ns_namespace (recv s)))
         s s')
    (fun v s' =>
       frame (isNamespaceChild (ns_clientset (recv s)) (ns_namespace (recv s)))
         s s'
       /\ hookPanic v) s.
Proof.
  set (ok := isNamespaceChild (ns_clientset (recv s)) (ns_namespace (recv s))).
  unfold KubernetesNamespace_OnAdd.
  apply wp_bind, wp_get_recv.
  apply wp_bind, wp_orPanic; [intros e _; split; [apply frame_refl | exact I]|].
  intros b _.
  apply wp_bind. apply wp_NewPersistentInode. cbn [onAdd Embeds_MemRegularFile].
  eapply wp_seq.
  { apply (@wp_AddChild_frame _ ok); [apply frame_refl|].
    left. split; [reflexivity | now exists b]. }
  intros us1 s1 F1. eapply wp_seq; [exact (wp_new_services _ _ F1)|].
  intros n1 s2 (F2 & K1). eapply wp_seq.
  { apply (@wp_AddChild_frame _ ok); [exact F2|].
    right. exists Service. split; [reflexivity | exact K1]. }
  intros us3 s3 F3. eapply wp_seq; [exact (wp_new_deployments _ _ F3)|].
  intros n2 s4 (F4 & K2). eapply wp_seq.
  { apply (@wp_AddChild_frame _ ok); [exact F4|].
    right. exists Deployment. split; [reflexivity | exact K2]. }
  intros us5 s5 F5. eapply wp_seq; [exact (wp_new_ingresses _ _ F5)|].
  intros n3 s6 (F6 & K3). eapply wp_seq.
  { apply (@wp_AddChild_frame _ ok); [exact F6|].
    right. exists Ingress. split; [reflexivity | exact K3]. }
  intros us7 s7 F7. exact F7.
Qed.

(** ** The root directory *)

Lemma kubeconfig_choice :
  (if negb (String.eqb HomeDir EmptyString)
   then flag_String "kubeconfig" (Join [HomeDir; ".kube"; "config"])
   else flag_String "kubeconfig" EmptyString) = kubeconfigPath.
Proof.
  unfold kubeconfigPath, defaultKubeconfig.
  now destruct (String.eqb HomeDir EmptyString).
Qed.

(** The root hook up to and including the listing of the namespaces. *)
Lemma root_run (c : option Clientset) (cs : Clientset)
  (kids : list (string * Inode)) (log : list Request) :
  bootstrap c = inr cs ->
  KubernetesRoot_OnAdd
    {| recv := {| root_clientset := c |}; children := kids; requests := log |} =
  match ListNamespaces cs with
  | inl err =>
      (Panic (PanicError err),
       {| recv := {| root_clientset := Some cs |};
          children := kids;
          requests := log ++ bootstrapRequests c ++ [ReqListNamespaces] |})
  | inr namespaces =>
      forRange namespaces addNamespace
        {| recv := {| root_clientset := Some cs |};
           children := kids;
           requests := log ++ bootstrapRequests c ++ [ReqListNamespaces] |}
  end.
Proof.
  intros Hb. unfold KubernetesRoot_OnAdd.
  unfold bind at 1. unfold get_recv at 1. cbn [recv root_clientset].
  destruct c as [cs'|]; cbn [bootstrap bootstrapRequests] in *.
  - injection Hb as ->.
    unfold bind at 1. cbn [ret]. unfold bind at 1. unfold get_recv at 1.
    cbn [recv root_clientset]. unfold bind at 1. cbn [deref ret].
    unfold bind at 1. unfold request at 1. cbn [recv children requests app].
    unfold bind at 1.
    destruct (ListNamespaces cs); reflexivity.
  - rewrite kubeconfig_choice.
    destruct (BuildConfigFromFlags EmptyString kubeconfigPath) as [err|config];
      [discriminate|].
    unfold bind at 1. unfold bind at 1. unfold request at 1.
    cbn [recv children requests]. unfold bind at 1. cbn [orPanic ret].
    unfold bind at 1. unfold request at 1. cbn [recv children requests].
    unfold bind at 1. rewrite Hb. cbn [orPanic ret]. unfold set_recv at 1.
    cbn [recv children requests].
    unfold bind at 1. unfold get_recv at 1.
    cbn [recv root_clientset]. unfold bind at 1. cbn [deref ret].
    unfold bind at 1. unfold request at 1. cbn [recv children requests].
    unfold bind at 1. rewrite <- !app_assoc. cbn [app].
    destruct (ListNamespaces cs); reflexivity.
Qed.

(** Creating the directory of a namespace that populates gives the
    populated directory, after its three listings. *)
Lemma new_namespace {R} (cs : Clientset) (ns : Namespace)
  (s : state Inode R) :
  namespacePopulates cs ns ->
  NewPersistentInode
    {| ns_clientset := Some cs; ns_namespace := ns |}
    {| saMode := S_IFDIR |} s =
  (Ok (namespaceTree cs ns),
   {| recv := recv s; children := children s;
      requests := requests s ++ namespaceRequests (Name ns) |}).
Proof.
  intros (Hb & Hp).
  unfold NewPersistentInode. cbn [onAdd Embeds_KubernetesNamespace].
  now rewrite (@namespace_run_on cs ns _ [] (requests s) Hb Hp).
Qed.

Lemma addNamespace_run (cs : Clientset) (ns : Namespace)
  (kids : list (string * Inode)) (log : list Request) :
  namespacePopulates cs ns ->
  Name ns <> EmptyString ->
  addNamespace ns
    {| recv := {| root_clientset := Some cs |};
       children := kids; requests := log |} =
  (Ok tt,
   {| recv := {| root_clientset := Some cs |};
      children := addNew kids (Name ns, namespaceTree cs ns);
      requests := log ++ namespaceRequests (Name ns) |}).
Proof.
  intros Hp Hn. unfold addNamespace.
  unfold bind at 1. unfold get_recv. cbn [recv root_clientset].
  unfold bind at 1. rewrite (new_namespace _ Hp).
  cbn [recv children requests]. unfold bind at 1.
  destruct (@AddChild_adds _ (Name ns) (namespaceTree cs ns)
              {| root_clientset := Some cs |} kids
              (log ++ namespaceRequests (Name ns))%list Hn) as [b ->].
  reflexivity.
Qed.

Lemma forRange_namespaces (cs : Clientset) (namespaces : list Namespace) :
  Forall (namespacePopulates cs) namespaces ->
  Forall (fun x => Name x <> EmptyString) namespaces ->
  forall (kids : list (string * Inode)) (log : list Request),
    forRange namespaces addNamespace
      {| recv := {| root_clientset := Some cs |};
         children := kids; requests := log |} =
    (Ok tt,
     {| recv := {| root_clientset := Some cs |};
        children := register (map (entry (namespaceTree cs)) namespaces) kids;
        requests := log ++ nestedRequests namespaces |}).
Proof.
  induction namespaces as [|ns rest IH]; intros Hp Hn kids log.
  - cbn. now rewrite app_nil_r.
  - inversion Hp as [|? ? Hp1 Hp2]; inversion Hn as [|? ? Hn1 Hn2]; subst.
    cbn [forRange]. unfold bind at 1.
    rewrite (addNamespace_run kids log Hp1 Hn1).
    rewrite (IH Hp2 Hn2). cbn [map register fold_left entry nestedRequests flat_map].
    unfold register, nestedRequests. cbn [fold_left map entry flat_map].
    now rewrite <- app_assoc.
Qed.

Lemma root_run_listed (c : option Clientset) (cs : Clientset)
  (namespaces : list Namespace) (kids : list (string * Inode))
  (log : list Request) :
  bootstrap c = inr cs ->
  ListNamespaces cs = inr namespaces ->
  Forall (namespacePopulates cs) namespaces ->
  Forall (fun x => Name x <> EmptyString) namespaces ->
  KubernetesRoot_OnAdd
    {| recv := {| root_clientset := c |}; children := kids; requests := log |} =
  (Ok tt,
   {| recv := {| root_clientset := Some cs |};
      children := register (map (entry (namespaceTree cs)) namespaces) kids;
      requests := log ++ bootstrapRequests c ++ [ReqListNamespaces]
                      ++ nestedRequests namespaces |}).
Proof.
  intros Hb Hl Hp Hn. rewrite (@root_run c cs kids log Hb), Hl.
  rewrite (forRange_namespaces Hp Hn). now rewrite <- !app_assoc.
Qed.

(** C3. Population of the root on a new node. The connection is the one
    the root holds when it holds one, and then no bootstrap request is
    sent; otherwise it is built from the [kubeconfig] flag (the command
    line's value, else [<home>/.kube/config] when the home directory is
    not empty, else the empty path) and stored in the root. When the
    connection is there, the namespaces are listed with distinct
    non-empty names and each of them populates, the hook returns
    normally; the requests are the bootstrap's, the one listing of the
    namespaces and the three listings of each namespace in turn; and the
    children are, in the order of the listing, one populated namespace
    directory per namespace, under the namespace's name, holding the
    stored connection. *)
Theorem root_population (c : option Clientset) (cs : Clientset)
  (namespaces : list Namespace) (log : list Request) :
  bootstrap c = inr cs ->
  ListNamespaces cs = inr namespaces ->
  Forall (namespacePopulates cs) namespaces ->
  Forall (fun x => Name x <> EmptyString) namespaces ->
  NoDup (map Name namespaces) ->
  KubernetesRoot_OnAdd
    {| recv := {| root_clientset := c |}; children := []; requests := log |} =
  (Ok tt,
   {| recv := {| root_clientset := Some cs |};
      children :=
        map (fun ns =>
               (Name ns,
                {| ops := EmbNamespace {| ns_clientset := Some cs;
                                          ns_namespace := ns |};
                   stableAttr := {| saMode := S_IFDIR |};
                   kids := namespaceChildren cs ns (content ns) |}))
            namespaces;
      requests := log ++ bootstrapRequests c ++ [ReqListNamespaces]
                      ++ nestedRequests namespaces |})
  /\ (forall cs', c = Some cs' -> cs = cs' /\ bootstrapRequests c = [])
  /\ (c = None ->
      bootstrapRequests c =
        [ReqBuildConfig EmptyString kubeconfigPath; ReqNewForConfig]
      /\ kubeconfigPath =
         match commandLine "kubeconfig" with
         | Some v => v
         | None =>
             if String.eqb HomeDir EmptyString then EmptyString
             else Join [HomeDir; ".kube"; "config"]
         end).
Proof.
  intros Hb Hl Hp Hn Hd. split; [|split].
  - rewrite (@root_run_listed c cs namespaces [] log Hb Hl Hp Hn).
    rewrite register_firsts. cbn [map app].
    rewrite firstByName_distinct; [reflexivity | exact Hd |].
    intros x _ [].
  - intros cs' ->. cbn in Hb. injection Hb as ->. now split.
  - intros ->. split; reflexivity.
Qed.

(** ** Failing listings *)

(** C4. When the listing fails with error [e], a collection hook and the
    root hook panic with [e] after that single listing request, and the
    node's children are the ones it had before the call. *)
Theorem list_error_aborts :
  (forall (k : Kind) (cs : Clientset) (namespace : string) (e : error)
          (kids : list (string * Inode)) (log : list Request),
      ListItems k cs namespace = inl e ->
      collectionOnAdd k (Some cs) namespace kids log =
      (Panic (PanicError e), kids, (log ++ [ReqList k namespace])%list))
  /\
  (forall (c : option Clientset) (cs : Clientset) (e : error)
          (kids : list (string * Inode)) (log : list Request),
      bootstrap c = inr cs ->
      ListNamespaces cs = inl e ->
      KubernetesRoot_OnAdd
        {| recv := {| root_clientset := c |};
           children := kids; requests := log |} =
      (Panic (PanicError e),
       {| recv := {| root_clientset := Some cs |};
          children := kids;
          requests := log ++ bootstrapRequests c ++ [ReqListNamespaces] |})).
Proof.
  split.
  - intros. now apply collection_list_error.
  - intros c cs e kids log Hb Hl.
    rewrite (@root_run c cs kids log Hb), Hl. reflexivity.
Qed.

(** ** Repeated names *)

(** C9. When a listing repeats a name, the children keep the entry made
    of the first item of that name and nothing of the later ones: on a
    new node the children are the entries of the first items by name, in
    listing order, their names are distinct, and looking a name up gives
    the file (or namespace directory) made of the first listed item of
    that name. For the root every listed namespace, a repeated one too,
    is populated before its name is found taken, so its three listings
    are in the log. An [AddChild] without overwrite on a taken name
    returns false and changes nothing. *)
Theorem first_name_wins :
  (forall (k : Kind) (cs : Clientset) (namespace : string)
          (items : list (Item k)) (log : list Request),
      ListItems k cs namespace = inr items ->
      Forall (fun x => pretty x = inr (content x)) items ->
      Forall (fun x => Name x <> EmptyString) items ->
      exists kids,
        collectionOnAdd k (Some cs) namespace [] log =
        (Ok tt, kids, (log ++ [ReqList k namespace])%list)
        /\ kids = map (entry leafOf) (firstByName [] items)
        /\ NoDup (map fst kids)
        /\ (forall name,
              lookup name kids = option_map leafOf (find (named name) items)))
  /\
  (forall (c : option Clientset) (cs : Clientset)
          (namespaces : list Namespace) (log : list Request),
      bootstrap c = inr cs ->
      ListNamespaces cs = inr namespaces ->
      Forall (namespacePopulates cs) namespaces ->
      Forall (fun x => Name x <> EmptyString) namespaces ->
      exists kids,
        KubernetesRoot_OnAdd
          {| recv := {| root_clientset := c |};
             children := []; requests := log |} =
        (Ok tt,
         {| recv := {| root_clientset := Some cs |};
            children := kids;
            requests := log ++ bootstrapRequests c ++ [ReqListNamespaces]
                            ++ nestedRequests namespaces |})
        /\ kids = map (entry (namespaceTree cs)) (firstByName [] namespaces)
        /\ NoDup (map fst kids)
        /\ (forall name,
              lookup name kids =
              option_map (namespaceTree cs) (find (named name) namespaces)))
  /\
  (forall (R : Type) (name : string) (ch ch' : Inode) (s : state Inode R),
      name <> EmptyString ->
      lookup name (children s) = Some ch' ->
      AddChild name ch false s = (Ok false, s)).
Proof.
  split; [|split].
  - intros k cs namespace items log Hl Hm Hn.
    eexists. split; [apply (@collection_run _ _ _ _ [] log Hl Hm Hn)|].
    now apply firsts_children.
  - intros c cs namespaces log Hb Hl Hp Hn.
    eexists.
    split; [apply (@root_run_listed c cs namespaces [] log Hb Hl Hp Hn)|].
    now apply firsts_children.
  - intros R name ch ch' s. apply AddChild_taken.
Qed.

(** ** Every outcome of the root hook *)

Lemma wp_new_namespace {R} (okKid : string * Inode -> Prop)
  (c : option Clientset) (ns : Namespace) (s0 s : state Inode R) :
  frame okKid s0 s ->
  wp (NewPersistentInode
        {| ns_clientset := c; ns_namespace := ns |}
        {| saMode := S_IFDIR |})
    (fun n s' =>
       frame okKid s0 s'
       /\ ops n = EmbNamespace {| ns_clientset := c; ns_namespace := ns |}
       /\ stableAttr n = {| saMode := S_IFDIR |}
       /\ Forall (isNamespaceChild c ns) (kids n))
    (fun v s' => frame okKid s0 s' /\ hookPanic v) s.
Proof.
  intros F. apply wp_NewPersistentInode.
  cbn [onAdd Embeds_KubernetesNamespace].
  eapply wp_mono; [| |apply namespace_summary];
    cbn [recv ns_clientset ns_namespace].
  - intros u c' Fc. split; [exact (frame_after_child F Fc)|].
    destruct Fc as (Hr & _ & Hc). cbn [ops stableAttr kids].
    rewrite Hr. repeat split. now apply appended_nil.
  - intros v c' (Fc & Hv). split; [exact (frame_after_child F Fc) | exact Hv].
Qed.

Lemma wp_addNamespace (x : Namespace) (s0 s : state Inode KubernetesRoot) :
  frame (isNamespaceEntry (root_clientset (recv s0))) s0 s ->
  wp (addNamespace x)
    (fun _ s' => frame (isNamespaceEntry (root_clientset (recv s0))) s0 s')
    (fun v s' =>
       frame (isNamespaceEntry (root_clientset (recv s0))) s0 s'
       /\ hookPanic v) s.
Proof.
  intros F. unfold addNamespace. apply wp_bind, wp_get_recv.
  eapply wp_seq; [exact (wp_new_namespace _ _ F)|].
  intros n s1 (F1 & Ho & Ha & Hk). eapply wp_seq.
  { apply (@wp_AddChild_frame _ (isNamespaceEntry (root_clientset (recv s0))));
      [exact F1|].
    exists x. cbn [fst snd]. destruct F as (Hr & _). rewrite Hr in Ho, Hk.
    now repeat split. }
  intros u s2 F2. exact F2.
Qed.

Lemma wp_namespaces (xs : list Namespace) (s0 s : state Inode KubernetesRoot) :
  frame (isNamespaceEntry (root_clientset (recv s0))) s0 s ->
  wp (forRange xs addNamespace)
    (fun _ s' => frame (isNamespaceEntry (root_clientset (recv s0))) s0 s')
    (fun v s' =>
       frame (isNamespaceEntry (root_clientset (recv s0))) s0 s'
       /\ hookPanic v) s.
Proof.
  apply (wp_forRange
           (fun s' => frame (isNamespaceEntry (root_clientset (recv s0))) s0 s')).
  intros x s1 H. now apply wp_addNamespace.
Qed.

(** A root whose bootstrap gives [cs]: in every outcome it holds [cs],
    has sent the bootstrap's requests and the listing of the namespaces,
    then only listings, and has added only namespace directories that
    hold [cs]. *)
Lemma root_summary (c : option Clientset) (cs : Clientset)
  (kids : list (string * Inode)) (log : list Request) :
  bootstrap c = inr cs ->
  wp KubernetesRoot_OnAdd
    (fun _ s' =>
       frame (isNamespaceEntry (Some cs))
         {| recv := {| root_clientset := Some cs |}; children := kids;
            requests := log ++ bootstrapRequests c ++ [ReqListNamespaces] |} s')
    (fun v s' =>
       frame (isNamespaceEntry (Some cs))
         {| recv := {| root_clientset := Some cs |}; children := kids;
            requests := log ++ bootstrapRequests c ++ [ReqListNamespaces] |} s'
       /\ hookPanic v)
    {| recv := {| root_clientset := c |}; children := kids; requests := log |}.
Proof.
  intros Hb. unfold wp at 1. rewrite (@root_run c cs kids log Hb).
  destruct (ListNamespaces cs) as [e|namespaces].
  - split; [apply frame_refl | exact I].
  - match goal with
    | |- context [forRange _ _ ?s0] =>
        exact (@wp_namespaces namespaces s0 s0 (frame_refl _ s0))
    end.
Qed.

(** What holds of the final state in both outcomes holds of it. *)
Lemma wp_state {R A} (m : M Inode R A) (F : state Inode R -> Prop)
  (H : PanicValue -> Prop) (s : state Inode R) :
  wp m (fun _ s' => F s') (fun v s' => F s' /\ H v) s ->
  F (snd (m s)).
Proof.
  unfold wp. destruct (m s) as [[a|v] s']; cbn [snd]; tauto.
Qed.

(** A hook whose panics are all the hook's own never fails on an index. *)
Lemma wp_no_index {R A} (m : M Inode R A) (F : state Inode R -> Prop)
  (s : state Inode R) (i n : nat) :
  wp m (fun _ s' => F s') (fun v s' => F s' /\ hookPanic v) s ->
  fst (m s) <> Panic (IndexOutOfRange i n).
Proof.
  unfold wp. destruct (m s) as [[a|v] s']; cbn [fst]; [discriminate|].
  intros (_ & Hv) E. injection E as ->. exact Hv.
Qed.

Lemma root_after (c : option Clientset) (cs : Clientset)
  (kids : list (string * Inode)) (log : list Request) :
  bootstrap c = inr cs ->
  frame (isNamespaceEntry (Some cs))
    {| recv := {| root_clientset := Some cs |}; children := kids;
       requests := log ++ bootstrapRequests c ++ [ReqListNamespaces] |}
    (snd (KubernetesRoot_OnAdd
            {| recv := {| root_clientset := c |};
               children := kids; requests := log |})).
Proof.
  intros Hb. exact (wp_state _ _ _ _ (@root_summary c cs kids log Hb)).
Qed.

(** ** The connection *)

Lemma connectionsBuilt_app (a b : list Request) :
  connectionsBuilt (a ++ b) = connectionsBuilt a + connectionsBuilt b.
Proof. unfold connectionsBuilt. now rewrite filter_app, length_app. Qed.

Lemma connectionsBuilt_bootstrap (c : option Clientset) :
  connectionsBuilt (bootstrapRequests c) =
  match c with Some _ => 0 | None => 1 end.
Proof. now destruct c. Qed.

(** A root whose bootstrap fails panics before it lists anything. *)
Lemma root_run_failed (c : option Clientset) (e : error)
  (kids : list (string * Inode)) (log : list Request) :
  bootstrap c = inl e ->
  c = None
  /\ exists extra,
      KubernetesRoot_OnAdd
        {| recv := {| root_clientset := c |};
           children := kids; requests := log |} =
      (Panic (PanicError e),
       {| recv := {| root_clientset := None |};
          children := kids; requests := log ++ extra |})
      /\ connectionsBuilt extra <= 1.
Proof.
  intros Hb. destruct c as [cs|]; [discriminate|]. split; [reflexivity|].
  cbn [bootstrap] in Hb.
  unfold KubernetesRoot_OnAdd, bind, get_recv, request, set_recv.
  cbn [recv root_clientset children requests]. rewrite kubeconfig_choice.
  destruct (BuildConfigFromFlags EmptyString kubeconfigPath) as [err|config].
  - injection Hb as ->.
    exists [ReqBuildConfig EmptyString kubeconfigPath].
    split; [reflexivity | cbn; lia].
  - cbn [orPanic ret]. rewrite Hb.
    exists [ReqBuildConfig EmptyString kubeconfigPath; ReqNewForConfig].
    split; [cbn; now rewrite <- app_assoc | cbn; lia].
Qed.

(** Over any number of runs of the root hook in a row, nested hooks
    included, at most one connection is asked for. *)
Lemma root_builds_once (n : nat) :
  forall (c : option Clientset) (kids : list (string * Inode))
         (log : list Request),
    connectionsBuilt
      (requests (snd (times n KubernetesRoot_OnAdd
                        {| recv := {| root_clientset := c |};
                           children := kids; requests := log |})))
    <= connectionsBuilt log + match c with Some _ => 0 | None => 1 end.
Proof.
  induction n as [|n IH]; intros c kids log; cbn [times].
  - cbn [ret snd requests]. lia.
  - unfold bind. destruct (bootstrap c) as [e|cs] eqn:Hb.
    + destruct (@root_run_failed c e kids log Hb) as (-> & extra & -> & Hx).
      cbn [snd requests]. rewrite connectionsBuilt_app. lia.
    + pose proof (@root_after _ _ kids log Hb) as (Hr & Hq & _).
      apply appended_built in Hq. cbn [recv requests] in Hr, Hq.
      rewrite !connectionsBuilt_app, connectionsBuilt_bootstrap in Hq.
      change (connectionsBuilt [ReqListNamespaces]) with 0 in Hq.
      destruct (KubernetesRoot_OnAdd _) as [[[]|v] [[c1] kids1 log1]];
        cbn [snd recv requests] in *; injection Hr as ->.
      * specialize (IH (Some cs) kids1 log1). cbv beta iota in IH.
        destruct c; lia.
      * destruct c; lia.
Qed.

(** ** The mounted tree *)

(** The tree [fs.Mount] builds from a root without connection. *)
Lemma mounted_tree (tree : Inode) :
  fst (NewNodeFS {| root_clientset := None |}) = Ok tree ->
  exists cs,
    bootstrap None = inr cs
    /\ ops tree = EmbRoot {| root_clientset := Some cs |}
    /\ stableAttr tree = {| saMode := S_IFDIR |}
    /\ Forall (isNamespaceEntry (Some cs)) (kids tree)
    /\ connectionsBuilt (snd (NewNodeFS {| root_clientset := None |})) = 1.
Proof.
  unfold NewNodeFS, fresh. intros Ht.
  destruct (bootstrap None) as [e|cs] eqn:Hb.
  - destruct (@root_run_failed _ _ [] [] Hb) as (_ & extra & E & _).
    rewrite E in Ht. discriminate.
  - exists cs. split; [reflexivity|].
    pose proof (@root_after _ _ [] [] Hb) as (Hr & Hq & Hc).
    apply appended_built in Hq. apply appended_nil in Hc.
    destruct (KubernetesRoot_OnAdd _) as [[[]|v] s1]; [|discriminate].
    cbn [fst snd] in *. injection Ht as <-.
    cbn [rootInode ops stableAttr kids recv requests] in *.
    rewrite Hr. repeat split; [exact Hc|]. rewrite Hq. reflexivity.
Qed.

Lemma leaf_has_no_child (data : bytes) (name : string) (rest : list string) :
  walk (leaf data) (name :: rest) = None.
Proof. reflexivity. Qed.

(** Where a non-empty path leads below a node whose children are
    namespace directories. *)
Lemma walk_layout (cs : Clientset) (tree n : Inode) (a : string)
  (rest : list string) :
  Forall (isNamespaceEntry (Some cs)) (kids tree) ->
  walk tree (a :: rest) = Some n ->
  length rest <= 2 /\ layout cs (a :: rest) n.
Proof.
  intros Hk Hw. cbn [walk] in Hw.
  destruct (lookup a (kids tree)) as [ch|] eqn:Hl; [|discriminate].
  rewrite Forall_forall in Hk.
  destruct (Hk _ (lookup_In _ _ Hl)) as (ns & Hns & Ho & Ha & Hc).
  cbn [fst snd] in Hns, Ho, Ha, Hc. subst a.
  destruct rest as [|b rest].
  - cbn in Hw. injection Hw as <-. split; [cbn; lia|]. now exists ns.
  - cbn [walk] in Hw.
    destruct (lookup b (kids ch)) as [ch2|] eqn:Hl2; [|discriminate].
    rewrite Forall_forall in Hc.
    pose proof (Hc _ (lookup_In _ _ Hl2)) as H2.
    unfold isNamespaceChild in H2. cbn [fst snd] in H2.
    destruct rest as [|c rest].
    + cbn in Hw. injection Hw as <-. split; [cbn; lia|].
      destruct H2 as [[-> Hd]|(k & -> & Ho2 & Ha2 & _)].
      * left. now split.
      * right. exists k. now repeat split.
    + destruct H2 as [[_ (data & ->)]|(k & _ & _ & _ & Hc2)];
        [now rewrite leaf_has_no_child in Hw|].
      cbn [walk] in Hw.
      destruct (lookup c (kids ch2)) as [ch3|] eqn:Hl3; [|discriminate].
      rewrite Forall_forall in Hc2.
      destruct (Hc2 _ (lookup_In _ _ Hl3)) as (data3 & Hch3).
      cbn [snd] in Hch3. subst ch3.
      destruct rest as [|d rest]; [|now rewrite leaf_has_no_child in Hw].
      cbn in Hw. injection Hw as <-. split; [cbn; lia|].
      now exists data3.
Qed.

Lemma layout_handle (cs : Clientset) (path : list string) (n : Inode) :
  layout cs path n ->
  handle (ops n) = None \/ handle (ops n) = Some (Some cs).
Proof.
  destruct path as [|a [|b [|c [|d rest]]]]; cbn [layout]; try tauto.
  - intros (ns & _ & -> & _). now right.
  - intros [[_ (data & ->)]|(k & _ & -> & _)]; [now left|].
    right. now destruct k.
  - intros (data & ->). now left.
Qed.

(** C7. The connection is built at most once and never replaced, and
    every node of the tree holds the one the root stored. A root that
    holds a connection keeps it, in every outcome, and all it sends is
    the listing of the namespaces followed by requests that are no
    bootstrap requests; the namespace and collection hooks leave their
    receiver as it was and send no bootstrap request; however often the
    root hook is invoked in a row, the log of all requests, those of the
    nested hooks included, gains at most one request for a new
    connection, and none when the root already held one; every child a
    root hook registers on a new node, also when it stops early, holds
    the connection the root ends with; and in the tree of a mount exactly
    one connection has been asked for, the root holds it, and every node
    reached by a path is a file (which holds no handle) or holds exactly
    that connection. *)
Theorem one_shared_connection :
  (forall (cs : Clientset) (kids : list (string * Inode)) (log : list Request),
      recv (snd (KubernetesRoot_OnAdd
                   {| recv := {| root_clientset := Some cs |};
                      children := kids; requests := log |}))
      = {| root_clientset := Some cs |}
      /\ exists rest,
           requests (snd (KubernetesRoot_OnAdd
                            {| recv := {| root_clientset := Some cs |};
                               children := kids; requests := log |}))
           = (log ++ ReqListNamespaces :: rest)%list
           /\ Forall (fun q => isBootstrap q = false) rest)
  /\ (forall s,
        recv (snd (KubernetesNamespace_OnAdd s)) = recv s
        /\ appended (fun q => isBootstrap q = false)
             (requests s) (requests (snd (KubernetesNamespace_OnAdd s))))
  /\ (forall s,
        recv (snd (KubernetesServices_OnAdd s)) = recv s
        /\ appended (fun q => isBootstrap q = false)
             (requests s) (requests (snd (KubernetesServices_OnAdd s))))
  /\ (forall s,
        recv (snd (KubernetesDeployments_OnAdd s)) = recv s
        /\ appended (fun q => isBootstrap q = false)
             (requests s) (requests (snd (KubernetesDeployments_OnAdd s))))
  /\ (forall s,
        recv (snd (KubernetesIngress_OnAdd s)) = recv s
        /\ appended (fun q => isBootstrap q = false)
             (requests s) (requests (snd (KubernetesIngress_OnAdd s))))
  /\ (forall (n : nat) (c : option Clientset) (kids : list (string * Inode))
             (log : list Request),
        connectionsBuilt
          (requests (snd (times n KubernetesRoot_OnAdd
                            {| recv := {| root_clientset := c |};
                               children := kids; requests := log |})))
        <= connectionsBuilt log + match c with Some _ => 0 | None => 1 end)
  /\ (forall (c : option Clientset) (cs : Clientset) (log : list Request),
        bootstrap c = inr cs ->
        Forall (fun e => handle (ops (snd e)) = Some (Some cs))
               (children (snd (KubernetesRoot_OnAdd
                                 {| recv := {| root_clientset := c |};
                                    children := []; requests := log |}))))
  /\ (forall tree : Inode,
        fst (NewNodeFS {| root_clientset := None |}) = Ok tree ->
        exists cs,
          bootstrap None = inr cs
          /\ handle (ops tree) = Some (Some cs)
          /\ connectionsBuilt (snd (NewNodeFS {| root_clientset := None |})) = 1
          /\ forall (path : list string) (n : Inode),
               walk tree path = Some n ->
               handle (ops n) = None \/ handle (ops n) = Some (Some cs)).
Proof.
  repeat apply conj.
  - intros cs kids log.
    assert (Hb : bootstrap (Some cs) = inr cs) by reflexivity.
    pose proof (@root_after _ _ kids log Hb) as (Hr & (rest & Hq & Hn) & _).
    cbn [recv requests bootstrapRequests app] in Hr, Hq.
    split; [exact Hr|]. exists rest. split; [|exact Hn].
    rewrite Hq, <- app_assoc. reflexivity.
  - intros s.
    pose proof (wp_state _ _ _ _ (namespace_summary s)) as (Hr & Hq & _).
    now split.
  - intros s.
    pose proof (wp_state _ _ _ _ (proj1 (services_summary s))) as (Hr & Hq & _).
    now split.
  - intros s.
    pose proof (wp_state _ _ _ _ (proj1 (deployments_summary s)))
      as (Hr & Hq & _).
    now split.
  - intros s.
    pose proof (wp_state _ _ _ _ (proj1 (ingresses_summary s))) as (Hr & Hq & _).
    now split.
  - intros n. apply root_builds_once.
  - intros c cs log Hb.
    pose proof (@root_after _ _ [] log Hb) as (_ & _ & Hc).
    apply appended_nil in Hc. cbn [children] in Hc.
    eapply Forall_impl; [|exact Hc].
    intros en (ns & _ & -> & _). reflexivity.
  - intros tree Ht.
    destruct (mounted_tree Ht) as (cs & Hb & Ho & _ & Hk & Hc).
    exists cs. split; [exact Hb|]. split; [now rewrite Ho|].
    split; [exact Hc|].
    intros [|a rest] n Hw.
    + cbn in Hw. injection Hw as <-. right. now rewrite Ho.
    + destruct (@walk_layout cs tree n a rest Hk Hw) as (_ & Hy).
      exact (@layout_handle cs (a :: rest) n Hy).
Qed.

(** ** Attributes of the root *)

(** C5. [Getattr] on the root returns errno 0 and writes mode 0755 and
    nothing else: read and execute bits set for owner, group and others,
    write bit clear for group and others. Once the framework has put the
    root inode's number and file type over that answer, the reply is a
    directory of permissions 0755 with that number. *)
Theorem root_getattr (r : KubernetesRoot) (out : AttrOut)
  (children : list (string * Inode)) (ino : Z) :
  snd (KubernetesRoot_Getattr r out) = 0%Z
  /\ Mode (attr (fst (KubernetesRoot_Getattr r out))) = o755
  /\ Z.land o755 (4 * 64 + 4 * 8 + 4) = (4 * 64 + 4 * 8 + 4)%Z
  /\ Z.land o755 (1 * 64 + 1 * 8 + 1) = (1 * 64 + 1 * 8 + 1)%Z
  /\ Z.land o755 (2 * 8 + 2) = 0%Z
  /\ Ino (attr (fst (KubernetesRoot_Getattr r out))) = Ino (attr out)
  /\ Size (attr (fst (KubernetesRoot_Getattr r out))) = Size (attr out)
  /\ AttrValid (fst (KubernetesRoot_Getattr r out)) = AttrValid out
  /\ snd (getattrReply (rootInode r children) ino
            (KubernetesRoot_Getattr r out)) = 0%Z
  /\ Z.land (Mode (attr (fst (getattrReply (rootInode r children) ino
                                (KubernetesRoot_Getattr r out))))) S_IFMT
     = S_IFDIR
  /\ Z.land (Mode (attr (fst (getattrReply (rootInode r children) ino
                                (KubernetesRoot_Getattr r out))))) 4095
     = o755
  /\ Ino (attr (fst (getattrReply (rootInode r children) ino
                       (KubernetesRoot_Getattr r out)))) = ino.
Proof.
  unfold KubernetesRoot_Getattr, getattrReply, rootInode, setMode.
  cbn [fst snd attr Mode Ino Size AttrValid stableAttr saMode Z.eqb].
  repeat split.
Qed.

(** ** The layout of the mounted tree *)

(** X11. The tree of a mount has the four-line layout and nothing else:
    a node reached from the mount point by a path is the root (empty
    path); or, at depth one, the directory of a namespace of that name;
    or, at depth two, the file [namespace.json] or the collection
    directory of a kind, under [services], [deployments] or [ingresses],
    bound to the name of the namespace above it; or, at depth three, a
    leaf file. No path of four or more names leads anywhere, and every
    directory below the root holds the connection the bootstrap
    returned. *)
Theorem tree_layout (tree : Inode) (path : list string) (n : Inode) :
  fst (NewNodeFS {| root_clientset := None |}) = Ok tree ->
  walk tree path = Some n ->
  length path <= 3
  /\ match path with
     | [] => n = tree
     | _ :: _ => exists cs, bootstrap None = inr cs /\ layout cs path n
     end.
Proof.
  intros Ht Hw. destruct path as [|a rest].
  - cbn in Hw. injection Hw as <-. split; [cbn; lia | reflexivity].
  - destruct (mounted_tree Ht) as (cs & Hb & _ & _ & Hk & _).
    destruct (@walk_layout cs tree n a rest Hk Hw) as (Hl & Hy).
    split; [cbn [length]; lia|]. exists cs. now split.
Qed.

(** ** The bytes behind a path *)

Lemma lookup_namespaceChildren (cs : Clientset) (ns : Namespace) (k : Kind) :
  lookup "namespace.json" (namespaceChildren cs ns (content ns)) =
    Some (leaf (content ns))
  /\ lookup (dirName k) (namespaceChildren cs ns (content ns)) =
       Some (collectionTree k cs (Name ns)).
Proof. split; [reflexivity | now destruct k]. Qed.

(** X12. What a mount stores behind the paths of the tree. When the
    bootstrap gives a connection, the namespaces are listed with
    non-empty names and each of them populates, the mount builds a tree
    in which, for the first listed namespace [N] of a name, the path
    [/name/namespace.json] is a file holding exactly the bytes
    [MarshalIndent] returned for [N], and, for every kind and the first
    listed resource [R] of a name [r] in that namespace, the path
    [/name/<kind>/r] is a file holding exactly the bytes [MarshalIndent]
    returned for [R]: the hooks store the serializer's output as it
    is. *)
Theorem stored_bytes_are_serializations (cs : Clientset)
  (namespaces : list Namespace) :
  bootstrap None = inr cs ->
  ListNamespaces cs = inr namespaces ->
  Forall (namespacePopulates cs) namespaces ->
  Forall (fun x => Name x <> EmptyString) namespaces ->
  exists tree,
    fst (NewNodeFS {| root_clientset := None |}) = Ok tree
    /\ forall (name : string) (N : Namespace),
         find (named name) namespaces = Some N ->
         MarshalIndent N EmptyString " " = inr (content N)
         /\ walk tree [name; "namespace.json"] = Some (leaf (content N))
         /\ forall (k : Kind) (r : string) (R : Item k),
              find (named r) (listed k cs name) = Some R ->
              MarshalIndent R EmptyString " " = inr (content R)
              /\ walk tree [name; dirName k; r] = Some (leaf (content R)).
Proof.
  intros Hb Hl Hp Hn.
  exists (rootInode {| root_clientset := Some cs |}
            (register (map (entry (namespaceTree cs)) namespaces) [])).
  split.
  { unfold NewNodeFS, fresh.
    now rewrite (@root_run_listed None cs namespaces [] [] Hb Hl Hp Hn). }
  intros name N HN.
  destruct (firsts_children (namespaceTree cs) namespaces eq_refl)
    as (_ & _ & Hlook).
  destruct (find_some _ _ HN) as (Hin & Hnm).
  apply String.eqb_eq in Hnm. subst name.
  rewrite Forall_forall in Hp. destruct (Hp N Hin) as (HbN & HpN).
  split; [exact HbN|].
  cbn [walk rootInode kids]. rewrite Hlook, HN.
  cbn [option_map namespaceTree kids].
  destruct (lookup_namespaceChildren cs N Service) as (Hj & _).
  split; [now rewrite Hj|].
  intros k r R HR.
  destruct (lookup_namespaceChildren cs N k) as (_ & Hd). rewrite Hd.
  destruct (firsts_children leafOf (listed k cs (Name N)) eq_refl)
    as (_ & _ & Hlook2).
  cbn [collectionTree kids]. rewrite Hlook2, HR. cbn [option_map].
  destruct (find_some _ _ HR) as (HinR & _).
  destruct (HpN k) as (_ & Hm & _). rewrite Forall_forall in Hm.
  split; [exact (Hm R HinR) | reflexivity].
Qed.

(** ** What a failure leaves behind *)

(** X2. A collection hook does not undo anything when an item fails to
    serialize: if the listing is [pre], then [x], then [post], the items
    of [pre] serialize and have non-empty names, and serializing [x]
    fails with [e], the hook panics with [e], the node keeps its children
    and has gained the files of [pre] (first of each name), and nothing
    of [post] is looked at. *)
Theorem collection_stops_at_unserializable (k : Kind) (cs : Clientset)
  (namespace : string) (pre post : list (Item k)) (x : Item k) (e : error)
  (kids : list (string * Inode)) (log : list Request) :
  ListItems k cs namespace = inr (pre ++ x :: post)%list ->
  Forall (fun y => pretty y = inr (content y)) pre ->
  Forall (fun y => Name y <> EmptyString) pre ->
  pretty x = inl e ->
  collectionOnAdd k (Some cs) namespace kids log =
  (Panic (PanicError e),
   register (map (entry leafOf) pre) kids,
   (log ++ [ReqList k namespace])%list).
Proof.
  intros Hl Hm Hn Hx. destruct k; unfold collectionOnAdd.
  - rewrite (@services_listed _ _ _ kids log Hl).
    now rewrite (forRange_addLeaf_stops _ _ _ Hm Hn Hx).
  - rewrite (@deployments_listed _ _ _ kids log Hl).
    now rewrite (forRange_addLeaf_stops _ _ _ Hm Hn Hx).
  - rewrite (@ingresses_listed _ _ _ kids log Hl).
    now rewrite (forRange_addLeaf_stops _ _ _ Hm Hn Hx).
Qed.

(** X3. How a namespace hook fails. If the descriptor does not
    serialize, it panics with the serializer's error and the node is
    exactly as before: no [namespace.json], none of the three
    directories, no request. If it serializes, [namespace.json] is
    registered first, and the hook of the new [services] directory runs
    before anything else: without connection the hook panics on the nil
    pointer before any request, and when that listing fails with [e] it
    panics with [e] after that one request; in both cases
    [namespace.json] stays registered and no directory is. *)
Theorem namespace_hook_failures (c : option Clientset) (ns : Namespace)
  (kids : list (string * Inode)) (log : list Request) :
  (forall e,
      pretty ns = inl e ->
      KubernetesNamespace_OnAdd
        {| recv := {| ns_clientset := c; ns_namespace := ns |};
           children := kids; requests := log |} =
      (Panic (PanicError e),
       {| recv := {| ns_clientset := c; ns_namespace := ns |};
          children := kids; requests := log |}))
  /\ (forall b,
        pretty ns = inr b ->
        match c with
        | None =>
            KubernetesNamespace_OnAdd
              {| recv := {| ns_clientset := None; ns_namespace := ns |};
                 children := kids; requests := log |} =
            (Panic NilPointerDereference,
             {| recv := {| ns_clientset := None; ns_namespace := ns |};
                children := addNew kids ("namespace.json", leaf b);
                requests := log |})
        | Some cs =>
            forall e,
              ListItems Service cs (Name ns) = inl e ->
              KubernetesNamespace_OnAdd
                {| recv := {| ns_clientset := Some cs; ns_namespace := ns |};
                   children := kids; requests := log |} =
              (Panic (PanicError e),
               {| recv := {| ns_clientset := Some cs; ns_namespace := ns |};
                  children := addNew kids ("namespace.json", leaf b);
                  requests := log ++ [ReqList Service (Name ns)] |})
        end).
Proof.
  split.
  - intros e He. unfold pretty in He.
    unfold KubernetesNamespace_OnAdd, bind, get_recv.
    cbn [recv ns_namespace]. now rewrite He.
  - intros b Hb. unfold pretty in Hb.
    destruct c as [cs|].
    + intros e He. unfold KubernetesNamespace_OnAdd.
      unfold bind at 1. unfold get_recv. cbn [recv ns_namespace ns_clientset].
      unfold bind at 1. rewrite Hb. cbn [orPanic ret].
      unfold bind at 1. rewrite NewPersistentInode_file.
      unfold bind at 1. add_child "namespace.json".
      unfold bind at 1. unfold NewPersistentInode at 1.
      cbn [onAdd Embeds_KubernetesServices].
      pose proof (@collection_list_error Service cs (Name ns) e [] log He) as E.
      unfold collectionOnAdd, outcome in E. cbn [requests].
      destruct (KubernetesServices_OnAdd _) as [r s1].
      cbn [fst snd] in E. injection E as -> _ ->. reflexivity.
    + unfold KubernetesNamespace_OnAdd.
      unfold bind at 1. unfold get_recv. cbn [recv ns_namespace ns_clientset].
      unfold bind at 1. rewrite Hb. cbn [orPanic ret].
      unfold bind at 1. rewrite NewPersistentInode_file.
      unfold bind at 1. add_child "namespace.json".
      reflexivity.
Qed.

Lemma root_stops_at_configuration (e : error)
  (kids : list (string * Inode)) (log : list Request) :
  BuildConfigFromFlags EmptyString kubeconfigPath = inl e ->
  KubernetesRoot_OnAdd
    {| recv := {| root_clientset := None |};
       children := kids; requests := log |} =
  (Panic (PanicError e),
   {| recv := {| root_clientset := None |};
      children := kids;
      requests := log ++ [ReqBuildConfig EmptyString kubeconfigPath] |}).
Proof.
  intros Hb.
  unfold KubernetesRoot_OnAdd, bind, get_recv, request.
  cbn [recv root_clientset children requests].
  rewrite kubeconfig_choice, Hb. reflexivity.
Qed.

Lemma root_stops_at_client (config : Config) (e : error)
  (kids : list (string * Inode)) (log : list Request) :
  BuildConfigFromFlags EmptyString kubeconfigPath = inr config ->
  NewForConfig config = inl e ->
  KubernetesRoot_OnAdd
    {| recv := {| root_clientset := None |};
       children := kids; requests := log |} =
  (Panic (PanicError e),
   {| recv := {| root_clientset := None |};
      children := kids;
      requests := log ++ [ReqBuildConfig EmptyString kubeconfigPath;
                          ReqNewForConfig] |}).
Proof.
  intros Hb Hc.
  unfold KubernetesRoot_OnAdd, bind, get_recv, request.
  cbn [recv root_clientset children requests].
  rewrite kubeconfig_choice, Hb. cbn [orPanic ret]. rewrite Hc.
  cbn [orPanic panic recv children requests]. now rewrite <- app_assoc.
Qed.

(** X4. A root without connection whose configuration cannot be built
    panics with that error after the one [BuildConfigFromFlags] request:
    it asks for no client, lists nothing, stays without connection and
    keeps its children. *)
Theorem root_without_configuration (e : error)
  (kids : list (string * Inode)) (log : list Request) :
  BuildConfigFromFlags EmptyString kubeconfigPath = inl e ->
  KubernetesRoot_OnAdd
    {| recv := {| root_clientset := None |};
       children := kids; requests := log |} =
  (Panic (PanicError e),
   {| recv := {| root_clientset := None |};
      children := kids;
      requests := log ++ [ReqBuildConfig EmptyString kubeconfigPath] |}).
Proof.
  intros Hb.
  unfold KubernetesRoot_OnAdd, bind, get_recv, request.
  cbn [recv root_clientset children requests].
  rewrite kubeconfig_choice, Hb. reflexivity.
Qed.

(** X5. A root without connection whose configuration is built but whose
    client cannot be made panics with that error after the two bootstrap
    requests: it lists nothing, stays without connection (nothing is
    stored) and keeps its children. *)
Theorem root_without_client (config : Config) (e : error)
  (kids : list (string * Inode)) (log : list Request) :
  BuildConfigFromFlags EmptyString kubeconfigPath = inr config ->
  NewForConfig config = inl e ->
  KubernetesRoot_OnAdd
    {| recv := {| root_clientset := None |};
       children := kids; requests := log |} =
  (Panic (PanicError e),
   {| recv := {| root_clientset := None |};
      children := kids;
      requests := log ++ [ReqBuildConfig EmptyString kubeconfigPath;
                          ReqNewForConfig] |}).
Proof.
  intros Hb Hc.
  unfold KubernetesRoot_OnAdd, bind, get_recv, request.
  cbn [recv root_clientset children requests].
  rewrite kubeconfig_choice, Hb. cbn [orPanic ret]. rewrite Hc.
  cbn [orPanic panic recv children requests]. now rewrite <- app_assoc.
Qed.

(** X6. Whatever happens afterwards, the first thing a root without
    connection does is to ask for the configuration with an empty master
    URL and the path of the [kubeconfig] flag: the value the command line
    gives it, whatever the home directory is, and only without one the
    default below the home directory (the empty path if there is no home
    directory). *)
Theorem root_first_request (kids : list (string * Inode))
  (log : list Request) :
  exists rest,
    requests (snd (KubernetesRoot_OnAdd
                     {| recv := {| root_clientset := None |};
                        children := kids; requests := log |})) =
    (log ++ ReqBuildConfig EmptyString
              match commandLine "kubeconfig" with
              | Some v => v
              | None =>
                  if String.eqb HomeDir EmptyString then EmptyString
                  else Join [HomeDir; ".kube"; "config"]
              end :: rest)%list.
Proof.
  change (match commandLine "kubeconfig" with
          | Some v => v
          | None => if String.eqb HomeDir EmptyString then EmptyString
                    else Join [HomeDir; ".kube"; "config"]
          end) with kubeconfigPath.
  destruct (BuildConfigFromFlags EmptyString kubeconfigPath)
    as [e|config] eqn:Hb.
  - exists []. now rewrite (root_stops_at_configuration kids log Hb).
  - destruct (NewForConfig config) as [e|cs] eqn:Hc.
    + exists [ReqNewForConfig].
      now rewrite (root_stops_at_client kids log Hb Hc).
    + assert (H : bootstrap None = inr cs)
        by (cbn [bootstrap]; now rewrite Hb).
      destruct (@root_after None cs kids log H) as (_ & (rest & Hq & _) & _).
      exists ([ReqNewForConfig; ReqListNamespaces] ++ rest)%list.
      rewrite Hq. cbn [requests bootstrapRequests].
      rewrite <- !app_assoc. reflexivity.
Qed.

(** ** Hooks run again *)

(** X7. A namespace hook run on a node with any children, when the
    descriptor serializes, the node holds a connection and the three
    collections populate: it returns normally after the three listings;
    it adds, of [namespace.json], [services], [deployments] and
    [ingresses], those names the node does not have yet, keeps the child
    of a name that is taken, and ignores the refusal. Run again on the
    node it has populated, it lists the three collections again, builds
    three new directories, which are refused, and changes no child. *)
Theorem namespace_repopulation (cs : Clientset) (ns : Namespace)
  (b : bytes) (kids : list (string * Inode)) (log : list Request) :
  pretty ns = inr b ->
  (forall k, collectionPopulates k cs (Name ns)) ->
  KubernetesNamespace_OnAdd
    {| recv := {| ns_clientset := Some cs; ns_namespace := ns |};
       children := kids; requests := log |} =
  (Ok tt,
   {| recv := {| ns_clientset := Some cs; ns_namespace := ns |};
      children := register (namespaceChildren cs ns b) kids;
      requests := log ++ namespaceRequests (Name ns) |})
  /\ KubernetesNamespace_OnAdd
       {| recv := {| ns_clientset := Some cs; ns_namespace := ns |};
          children := register (namespaceChildren cs ns b) kids;
          requests := log ++ namespaceRequests (Name ns) |} =
     (Ok tt,
      {| recv := {| ns_clientset := Some cs; ns_namespace := ns |};
         children := register (namespaceChildren cs ns b) kids;
         requests := (log ++ namespaceRequests (Name ns))
                       ++ namespaceRequests (Name ns) |})
  /\ (forall name ch,
        lookup name kids = Some ch ->
        lookup name (register (namespaceChildren cs ns b) kids) = Some ch).
Proof.
  intros Hb Hp. split; [|split].
  - now apply namespace_run_on.
  - rewrite (@namespace_run_on cs ns b _ _ Hb Hp). now rewrite register_idem.
  - intros name ch. apply register_keeps.
Qed.

(** X8. A collection hook run on a node that already holds the files of
    the listing (for instance a second run after a first one) lists again
    and returns normally without changing any child. *)
Theorem collection_repopulation (k : Kind) (cs : Clientset)
  (namespace : string) (items : list (Item k))
  (kids : list (string * Inode)) (log : list Request) :
  ListItems k cs namespace = inr items ->
  Forall (fun x => pretty x = inr (content x)) items ->
  Forall (fun x => Name x <> EmptyString) items ->
  collectionOnAdd k (Some cs) namespace
    (register (map (entry leafOf) items) kids) log =
  (Ok tt, register (map (entry leafOf) items) kids,
   (log ++ [ReqList k namespace])%list).
Proof.
  intros Hl Hm Hn.
  rewrite (@collection_run _ _ _ _ _ log Hl Hm Hn).
  now rewrite register_idem.
Qed.

(** X9. However many times in a row the root hook runs on one node (at
    least once), when the connection is there, the namespaces are listed
    with non-empty names and each of them populates: the children are
    those of the first run, the bootstrap requests are sent at most once,
    before the first listing, and every run lists the namespaces once
    and populates a new directory for every listed namespace, with its
    three listings, also when the directory is then refused. *)
Theorem root_repopulation (n : nat) :
  forall (c : option Clientset) (cs : Clientset)
         (namespaces : list Namespace) (kids : list (string * Inode))
         (log : list Request),
    bootstrap c = inr cs ->
    ListNamespaces cs = inr namespaces ->
    Forall (namespacePopulates cs) namespaces ->
    Forall (fun x => Name x <> EmptyString) namespaces ->
    times (S n) KubernetesRoot_OnAdd
      {| recv := {| root_clientset := c |};
         children := kids; requests := log |} =
    (Ok tt,
     {| recv := {| root_clientset := Some cs |};
        children :=
          register (map (entry (namespaceTree cs)) namespaces) kids;
        requests :=
          log ++ bootstrapRequests c
              ++ concat (repeat (ReqListNamespaces :: nestedRequests namespaces)
                                (S n)) |}).
Proof.
  induction n as [|n IH]; intros c cs namespaces kids log Hb Hl Hp Hn.
  - cbn [times]. unfold bind.
    rewrite (@root_run_listed c cs namespaces kids log Hb Hl Hp Hn).
    cbn [ret repeat concat app]. now rewrite app_nil_r.
  - change (times (S (S n)) KubernetesRoot_OnAdd)
      with (bind KubernetesRoot_OnAdd
              (fun _ => times (S n) KubernetesRoot_OnAdd)).
    unfold bind at 1.
    rewrite (@root_run_listed c cs namespaces kids log Hb Hl Hp Hn).
    rewrite (IH (Some cs) cs namespaces _ _ eq_refl Hl Hp Hn).
    rewrite register_idem. cbn [bootstrapRequests app].
    change (repeat (ReqListNamespaces :: nestedRequests namespaces) (S (S n)))
      with ((ReqListNamespaces :: nestedRequests namespaces)
              :: repeat (ReqListNamespaces :: nestedRequests namespaces) (S n)).
    cbn [concat]. rewrite <- !app_assoc. reflexivity.
Qed.

(** X10. In every outcome (normal return, failed listing, item that does
    not serialize, refused name) a collection hook that holds a
    connection has sent exactly one request: the listing of its own kind
    in its own namespace. It never retries, never lists another kind or
    namespace and never asks for a connection. Without connection it
    sends nothing. *)
Theorem collection_requests (k : Kind) (c : option Clientset)
  (namespace : string) (kids : list (string * Inode)) (log : list Request) :
  snd (collectionOnAdd k c namespace kids log) =
  match c with
  | Some _ => (log ++ [ReqList k namespace])%list
  | None => log
  end.
Proof.
  destruct k; unfold collectionOnAdd, outcome; cbn [snd].
  - now rewrite (proj2 (services_summary _)).
  - now rewrite (proj2 (deployments_summary _)).
  - now rewrite (proj2 (ingresses_summary _)).
Qed.

(** ** What every run of a hook preserves *)

Lemma extends_refl {R} (s : state Inode R) : extends s s.
Proof.
  split; [|tauto]. exists []. now rewrite app_nil_r.
Qed.

Lemma extends_trans {R} (s1 s2 s3 : state Inode R) :
  extends s1 s2 -> extends s2 s3 -> extends s1 s3.
Proof.
  intros [[a Ha] Na] [[b Hb] Nb]. split; [|tauto].
  exists (a ++ b)%list. now rewrite Hb, Ha, app_assoc.
Qed.

Lemma grows_ret {R A} (a : A) : grows (ret (R := R) a).
Proof. intros s. apply extends_refl. Qed.

Lemma grows_panic {R A} (v : PanicValue) : grows (panic (R := R) (A := A) v).
Proof. intros s. apply extends_refl. Qed.

Lemma grows_get_recv {R} : grows (get_recv (Node := Inode) (R := R)).
Proof. intros s. apply extends_refl. Qed.

Lemma grows_set_recv {R} (r : R) : grows (set_recv (Node := Inode) r).
Proof. intros s. split; [exists []; cbn; now rewrite app_nil_r | tauto]. Qed.

Lemma grows_request {R} (q : Request) :
  grows (request (Node := Inode) (R := R) q).
Proof. intros s. split; [exists []; cbn; now rewrite app_nil_r | tauto]. Qed.

Lemma grows_orPanic {R A} (x : error + A) : grows (orPanic (R := R) x).
Proof. destruct x; [apply grows_panic | apply grows_ret]. Qed.

Lemma grows_deref {R} (c : option Clientset) : grows (deref (R := R) c).
Proof. destruct c; [apply grows_ret | apply grows_panic]. Qed.

(** The hook of a new node works on the new node's children, not on the
    parent's. *)
Lemma grows_NewPersistentInode {R C} {Em : Embeds C} (node : C)
  (id : StableAttr) :
  grows (NewPersistentInode (R := R) node id).
Proof.
  intros s. unfold NewPersistentInode.
  destruct onAdd as [h|]; [|apply extends_refl].
  destruct (h _) as [[[]|v] c']; cbn [snd];
    (split; [exists []; cbn; now rewrite app_nil_r | tauto]).
Qed.

Lemma grows_AddChild {R} (name : string) (ch : Inode) :
  grows (AddChild (R := R) name ch false).
Proof.
  intros s. unfold AddChild.
  destruct (String.eqb name EmptyString); [apply extends_refl|].
  destruct (lookup name (children s)) eqn:E; [apply extends_refl|].
  cbn [snd]. split; cbn [children].
  - now exists [(name, ch)].
  - intros Hd. rewrite map_app. cbn [map fst].
    apply NoDup_app; [exact Hd | repeat constructor; intros [] |].
    intros x Hx [<-|[]]. now apply (lookup_absent _ _ E).
Qed.

Lemma grows_bind {R A B} (m : M Inode R A) (f : A -> M Inode R B) :
  grows m -> (forall a, grows (f a)) -> grows (bind m f).
Proof.
  intros Hm Hf s. unfold bind. specialize (Hm s).
  destruct (m s) as [[a|v] s1]; cbn [snd] in *; [|exact Hm].
  eapply extends_trans; [exact Hm | apply Hf].
Qed.

Lemma grows_forRange {R A} (body : A -> Hook R) (xs : list A) :
  (forall x, grows (body x)) -> grows (forRange xs body).
Proof.
  intros Hb. induction xs as [|x xs IH]; cbn [forRange].
  - apply grows_ret.
  - apply grows_bind; [apply Hb | intros _; exact IH].
Qed.

Ltac grow :=
  repeat first
    [ apply grows_bind; [|intro]
    | apply grows_forRange; intro
    | apply grows_ret | apply grows_panic | apply grows_get_recv
    | apply grows_set_recv | apply grows_request | apply grows_orPanic
    | apply grows_deref | apply grows_NewPersistentInode
    | apply grows_AddChild ].

(** X1. Whatever state a hook starts from and however it ends (normally or
    by a panic at any point), the children the node had are still there,
    at the same places, followed by whatever the hook added; no child is
    removed, replaced or moved; and names that were distinct stay
    distinct. *)
Theorem hooks_only_append :
  grows KubernetesRoot_OnAdd
  /\ grows KubernetesNamespace_OnAdd
  /\ grows KubernetesServices_OnAdd
  /\ grows KubernetesDeployments_OnAdd
  /\ grows KubernetesIngress_OnAdd.
Proof.
  repeat apply conj.
  - unfold KubernetesRoot_OnAdd. apply grows_bind; [grow|]. intros r.
    apply grows_bind; [destruct (root_clientset r); grow | intros _; grow].
  - unfold KubernetesNamespace_OnAdd. grow.
  - unfold KubernetesServices_OnAdd. grow.
  - unfold KubernetesDeployments_OnAdd. grow.
  - unfold KubernetesIngress_OnAdd. grow.
Qed.

(** ** Panics of the root hook *)

(** The root hook panics with an error of a collaborator, on the nil
    connection or on an empty name, never on an index. *)
Lemma root_never_index (s : state Inode KubernetesRoot) (i n : nat) :
  fst (KubernetesRoot_OnAdd s) <> Panic (IndexOutOfRange i n).
Proof.
  destruct s as [[c] kids log]. destruct (bootstrap c) as [e|cs] eqn:Hb.
  - destruct (@root_run_failed c e kids log Hb) as (_ & extra & -> & _).
    discriminate.
  - exact (wp_no_index _ _ _ (@root_summary c cs kids log Hb)).
Qed.

End Properties.

Section MountProperties.

Context {env : Cluster}.
Variable Server : Type.
Variable NewServer : string -> Inode -> Options -> error + Server.

(** ** The mount command *)

(** C10. Run without a positional argument, the command panics on the
    index [args[0]], out of range for the empty list, before anything is
    mounted or asked of the cluster. With at least one argument it goes
    on to [fs.Mount] at the first one, with a root without connection:
    the tree is built, and a panic of the root hook is the command's;
    then the mount is attempted. The command stops on an index out of
    range exactly when there is no argument. *)
Theorem mount_needs_an_argument :
  mountCmd_Run NewServer [] = Panicked (IndexOutOfRange 0 0)
  /\ (forall (dir : string) (rest : list string),
        mountCmd_Run NewServer (dir :: rest) =
        match fst (NewNodeFS {| root_clientset := None |}) with
        | Panic v => Panicked v
        | Ok tree =>
            match NewServer dir tree {| Debug := false |} with
            | inl err => Fatal ("Mount fail: " ++ err ++ newline)
            | inr server => Waiting server
            end
        end)
  /\ (forall args : list string,
        (exists i n,
            mountCmd_Run NewServer args = Panicked (IndexOutOfRange i n))
        <-> args = []).
Proof.
  assert (Run : forall dir rest,
             mountCmd_Run NewServer (dir :: rest) =
             match fst (NewNodeFS {| root_clientset := None |}) with
             | Panic v => Panicked v
             | Ok tree =>
                 match NewServer dir tree {| Debug := false |} with
                 | inl err => Fatal ("Mount fail: " ++ err ++ newline)
                 | inr server => Waiting server
                 end
             end).
  { intros dir rest. unfold mountCmd_Run, fs_Mount. cbn [nth_error].
    destruct (fst (NewNodeFS _)); reflexivity. }
  split; [reflexivity|]. split; [exact Run|].
  intros args. split.
  - intros (i & n & Hv). destruct args as [|dir rest]; [reflexivity|].
    rewrite Run in Hv. exfalso.
    pose proof (@root_never_index _ (fresh {| root_clientset := None |}) i n)
      as Hr.
    unfold NewNodeFS in Hv.
    destruct (KubernetesRoot_OnAdd _) as [[[]|v] s1]; cbn [fst] in Hv, Hr.
    + destruct (NewServer dir _ _); discriminate.
    + injection Hv as ->. now apply Hr.
  - intros ->. now exists 0, 0.
Qed.

End MountProperties.

(** * The mount on the demo clusters *)

(** The requests of a mount on the cluster with namespaces [default] and
    [kube-system]: the bootstrap, the namespaces, and three listings for
    each namespace. *)
Example scenario_mount :
  NewNodeFS (env := Demo.cluster) (Build_KubernetesRoot None) =
  (Ok (rootInode (env := Demo.cluster)
         (Build_KubernetesRoot (env := Demo.cluster) (Some 7))
         [("default", namespaceTree (env := Demo.cluster) 7 Demo.default);
          ("kube-system",
           namespaceTree (env := Demo.cluster) 7
             (Demo.obj "kube-system" "Active"))]),
   [ReqBuildConfig EmptyString "/home/op/.kube/config"; ReqNewForConfig;
    ReqListNamespaces;
    ReqList Service "default"; ReqList Deployment "default";
    ReqList Ingress "default";
    ReqList Service "kube-system"; ReqList Deployment "kube-system";
    ReqList Ingress "kube-system"]).
Proof. reflexivity. Qed.

Example scenario_service :
  resolve Demo.cluster ["default"; "services"; "svc-a"] =
  Some (leaf (env := Demo.cluster) (Demo.encode Demo.svcA)).
Proof. reflexivity. Qed.

Example scenario_deployments_empty :
  option_map kids (resolve Demo.cluster ["default"; "deployments"]) = Some [].
Proof. reflexivity. Qed.

Example scenario_ingress :
  resolve Demo.cluster ["default"; "ingresses"; "ing-1"] =
  Some (leaf (env := Demo.cluster) (Demo.encode (Demo.obj "ing-1" "nginx"))).
Proof. reflexivity. Qed.

Example scenario_other_namespace :
  option_map (fun n => map fst (kids n))
    (resolve Demo.cluster ["kube-system"]) =
  Some ["namespace.json"; "services"; "deployments"; "ingresses"].
Proof. reflexivity. Qed.

Example scenario_missing :
  resolve Demo.cluster ["default"; "services"; "svc-b"] = None.
Proof. reflexivity. Qed.

(** A nested listing that fails aborts the whole mount: there is no
    tree. *)
Example scenario_nested_failure :
  NewNodeFS (env := Fragile.scenarioB) (Build_KubernetesRoot None) =
  (Panic (PanicError "forbidden"),
   [ReqBuildConfig EmptyString "/home/op/.kube/config"; ReqNewForConfig;
    ReqListNamespaces; ReqList Service "default"])
  /\ resolve Fragile.scenarioB ["default"; "namespace.json"] = None.
Proof. split; reflexivity. Qed.

(** The panic of the root hook is the command's. *)
Example scenario_mount_panics :
  mountCmd_Run (env := Fragile.scenarioB) (fun _ _ _ => inr tt) ["/mnt"] =
  Panicked (PanicError "forbidden").
Proof. reflexivity. Qed.

(** A namespace hook whose first listing fails, or without connection:
    only [namespace.json] is registered. *)
Example namespace_listing_fails :
  KubernetesNamespace_OnAdd (env := Demo.failing)
    (fresh (Build_KubernetesNamespace (env := Demo.failing)
              (Some 7) Demo.default)) =
  (Panic (PanicError "forbidden"),
   {| recv := Build_KubernetesNamespace (env := Demo.failing)
                (Some 7) Demo.default;
      children := [("namespace.json",
                    leaf (env := Demo.failing) (Demo.encode Demo.default))];
      requests := [ReqList Service "default"] |}).
Proof. reflexivity. Qed.

Example namespace_without_connection :
  KubernetesNamespace_OnAdd (env := Demo.cluster)
    (fresh (Build_KubernetesNamespace (env := Demo.cluster)
              None Demo.default)) =
  (Panic NilPointerDereference,
   {| recv := Build_KubernetesNamespace (env := Demo.cluster)
                None Demo.default;
      children := [("namespace.json",
                    leaf (env := Demo.cluster) (Demo.encode Demo.default))];
      requests := [] |}).
Proof. reflexivity. Qed.

(** A listing that repeats [a]: the file [a] is the first one. *)
Example repeated_name_keeps_first :
  collectionOnAdd (env := Demo.repeating) Service (Some 7) "default" [] [] =
  (Ok tt,
   [("a", leaf (env := Demo.repeating) (Demo.encode (Demo.obj "a" "first")));
    ("b", leaf (env := Demo.repeating) (Demo.encode (Demo.obj "b" "x")))],
   [ReqList Service "default"]).
Proof. reflexivity. Qed.

(** A listing of namespaces that repeats [default]: all three are
    populated, two are registered. *)
Example repeated_namespace :
  map fst (children (snd (KubernetesRoot_OnAdd (env := Demo.repeating)
                            (fresh (Build_KubernetesRoot (env := Demo.repeating)
                                      (Some 7)))))) =
  ["default"; "other"]
  /\ requests (snd (KubernetesRoot_OnAdd (env := Demo.repeating)
                      (fresh (Build_KubernetesRoot (env := Demo.repeating)
                                      (Some 7))))) =
     [ReqListNamespaces;
      ReqList Service "default"; ReqList Deployment "default";
      ReqList Ingress "default";
      ReqList Service "other"; ReqList Deployment "other";
      ReqList Ingress "other";
      ReqList Service "default"; ReqList Deployment "default";
      ReqList Ingress "default"].
Proof. split; reflexivity. Qed.

(** * The theorems at the demo clusters *)

Lemma demo_populates :
  Forall (namespacePopulates (env := Demo.cluster) 7)
    [Demo.default; Demo.obj "kube-system" "Active"].
Proof.
  repeat (apply Forall_cons || apply Forall_nil);
    (split; [reflexivity|]); intros [];
    (split; [reflexivity|]); split;
    repeat (apply Forall_cons || apply Forall_nil);
    (reflexivity || discriminate).
Qed.

Lemma demo_named :
  Forall (fun x : Demo.Object =>
            Name (Resource := Demo.ResObject) x <> EmptyString)
    [Demo.default; Demo.obj "kube-system" "Active"].
Proof. repeat constructor; discriminate. Qed.

Lemma repeating_populates :
  Forall (namespacePopulates (env := Demo.repeating) 7)
    [Demo.obj "default" "first"; Demo.obj "other" "x";
     Demo.obj "default" "second"].
Proof.
  repeat (apply Forall_cons || apply Forall_nil);
    (split; [reflexivity|]); intros [];
    (split; [reflexivity|]); split;
    repeat (apply Forall_cons || apply Forall_nil);
    (reflexivity || discriminate).
Qed.

Lemma namespace_population_witness :
  KubernetesNamespace_OnAdd (env := Demo.cluster)
    {| recv := Build_KubernetesNamespace (env := Demo.cluster)
                 (Some 7) Demo.default;
       children := []; requests := [] |} =
  (Ok tt,
   {| recv := Build_KubernetesNamespace (env := Demo.cluster)
                (Some 7) Demo.default;
      children :=
        [("namespace.json",
          leaf (env := Demo.cluster) (Demo.encode Demo.default));
         ("services",
          {| ops := EmbServices (Build_KubernetesServices (env := Demo.cluster)
                                   (Some 7) "default");
             stableAttr := {| saMode := S_IFDIR |};
             kids := [("svc-a",
                       leaf (env := Demo.cluster) (Demo.encode Demo.svcA))] |});
         ("deployments",
          {| ops := EmbDeployments
                      (Build_KubernetesDeployments (env := Demo.cluster)
                         (Some 7) "default");
             stableAttr := {| saMode := S_IFDIR |};
             kids := [] |});
         ("ingresses",
          {| ops := EmbIngress (Build_KubernetesIngress (env := Demo.cluster)
                                  (Some 7) "default");
             stableAttr := {| saMode := S_IFDIR |};
             kids := [("ing-1",
                       leaf (env := Demo.cluster)
                         (Demo.encode (Demo.obj "ing-1" "nginx")))] |})];
      requests := [ReqList Service "default"; ReqList Deployment "default";
                   ReqList Ingress "default"] |}).
Proof.
  refine (@namespace_population Demo.cluster 7 Demo.default
            (Demo.encode Demo.default) [] eq_refl _).
  intros []; (split; [reflexivity|]); split;
    repeat (apply Forall_cons || apply Forall_nil);
    (reflexivity || discriminate).
Defined.

Lemma collection_population_witness :
  ListItems (Cluster := Demo.cluster) Service 7 "default" = inr [Demo.svcA]
  /\ NoDup (map (Name (Resource := Demo.ResObject)) [Demo.svcA])
  /\ collectionOnAdd (env := Demo.cluster) Service (Some 7) "default" [] [] =
     (Ok tt, [("svc-a", leaf (env := Demo.cluster) (Demo.encode Demo.svcA))],
      [ReqList Service "default"]).
Proof.
  assert (Hd : NoDup (map (Name (Resource := Demo.ResObject)) [Demo.svcA]))
    by (repeat constructor; intros []).
  split; [reflexivity|]. split; [exact Hd|].
  refine (proj1 (collection_population (env := Demo.cluster) Service 7
                   "default" (items := [Demo.svcA]) [] eq_refl _ _ Hd)).
  - repeat constructor.
  - repeat constructor. discriminate.
Defined.

Lemma root_population_witness :
  bootstrap (env := Demo.cluster) None = inr 7
  /\ KubernetesRoot_OnAdd (env := Demo.cluster)
       {| recv := Build_KubernetesRoot (env := Demo.cluster) None;
          children := []; requests := [] |} =
     (Ok tt,
      {| recv := Build_KubernetesRoot (env := Demo.cluster) (Some 7);
         children :=
           [("default", namespaceTree (env := Demo.cluster) 7 Demo.default);
            ("kube-system",
             namespaceTree (env := Demo.cluster) 7
               (Demo.obj "kube-system" "Active"))];
         requests :=
           [ReqBuildConfig EmptyString "/home/op/.kube/config";
            ReqNewForConfig; ReqListNamespaces;
            ReqList Service "default"; ReqList Deployment "default";
            ReqList Ingress "default";
            ReqList Service "kube-system"; ReqList Deployment "kube-system";
            ReqList Ingress "kube-system"] |}).
Proof.
  split; [reflexivity|].
  refine (proj1 (@root_population Demo.cluster None 7
                   [Demo.default; Demo.obj "kube-system" "Active"]
                   [] eq_refl eq_refl demo_populates demo_named _)).
  repeat constructor; cbn; intuition discriminate.
Defined.

(** C3, as first stated: the bootstrap would always build the connection
    from a path below the home directory. Without a home directory the
    path is the empty one. *)
Lemma root_bootstrap_without_home :
  hd_error (requests (snd (KubernetesRoot_OnAdd (env := Demo.homeless)
                             (fresh (Build_KubernetesRoot None))))) =
  Some (ReqBuildConfig EmptyString EmptyString)
  /\ hd_error (requests (snd (KubernetesRoot_OnAdd (env := Demo.homeless)
                                (fresh (Build_KubernetesRoot None))))) <>
     Some (ReqBuildConfig EmptyString
             (Join (Cluster := Demo.homeless)
                [HomeDir (Cluster := Demo.homeless); ".kube"; "config"])).
Proof.
  split; [vm_compute; reflexivity|].
  intros H. vm_compute in H. discriminate H.
Qed.

Lemma list_error_aborts_witness :
  collectionOnAdd (env := Demo.failing) Ingress (Some 7) "default"
    [("kept", leaf (env := Demo.failing) [])] [] =
  (Panic (PanicError "forbidden"), [("kept", leaf (env := Demo.failing) [])],
   [ReqList Ingress "default"])
  /\ KubernetesRoot_OnAdd (env := Demo.failing)
       {| recv := Build_KubernetesRoot (env := Demo.failing) (Some 7);
          children := [("kept", leaf (env := Demo.failing) [])]; requests := [] |} =
     (Panic (PanicError "forbidden"),
      {| recv := Build_KubernetesRoot (env := Demo.failing) (Some 7);
         children := [("kept", leaf (env := Demo.failing) [])];
         requests := [ReqListNamespaces] |}).
Proof.
  split.
  - exact (proj1 (list_error_aborts (env := Demo.failing)) Ingress 7
             "default" "forbidden" [("kept", leaf (env := Demo.failing) [])] [] eq_refl).
  - exact (proj2 (list_error_aborts (env := Demo.failing)) (Some 7) 7
             "forbidden" [("kept", leaf (env := Demo.failing) [])] [] eq_refl eq_refl).
Defined.

Lemma first_name_wins_witness :
  (exists kids,
      collectionOnAdd (env := Demo.repeating) Service (Some 7) "default" [] [] =
      (Ok tt, kids, [ReqList Service "default"])
      /\ kids = map (entry (leafOf (env := Demo.repeating)))
                  (firstByName []
                     [Demo.obj "a" "first"; Demo.obj "b" "x";
                      Demo.obj "a" "second"])
      /\ NoDup (map fst kids)
      /\ (forall name,
            lookup name kids =
            option_map (leafOf (env := Demo.repeating))
              (find (named name)
                 [Demo.obj "a" "first"; Demo.obj "b" "x";
                  Demo.obj "a" "second"])))
  /\ (exists kids,
        KubernetesRoot_OnAdd (env := Demo.repeating)
          {| recv := Build_KubernetesRoot (env := Demo.repeating) (Some 7);
             children := []; requests := [] |} =
        (Ok tt,
         {| recv := Build_KubernetesRoot (env := Demo.repeating) (Some 7);
            children := kids;
            requests :=
              [ReqListNamespaces;
               ReqList Service "default"; ReqList Deployment "default";
               ReqList Ingress "default";
               ReqList Service "other"; ReqList Deployment "other";
               ReqList Ingress "other";
               ReqList Service "default"; ReqList Deployment "default";
               ReqList Ingress "default"] |})
        /\ kids = map (entry (namespaceTree (env := Demo.repeating) 7))
                    (firstByName []
                       [Demo.obj "default" "first"; Demo.obj "other" "x";
                        Demo.obj "default" "second"])
        /\ NoDup (map fst kids)
        /\ (forall name,
              lookup name kids =
              option_map (namespaceTree (env := Demo.repeating) 7)
                (find (named name)
                   [Demo.obj "default" "first"; Demo.obj "other" "x";
                    Demo.obj "default" "second"]))).
Proof.
  split.
  - refine (proj1 (first_name_wins (env := Demo.repeating)) Service 7
              "default"
              [Demo.obj "a" "first"; Demo.obj "b" "x"; Demo.obj "a" "second"]
              [] eq_refl _ _).
    + repeat constructor.
    + repeat constructor; discriminate.
  - refine (proj1 (proj2 (first_name_wins (env := Demo.repeating))) (Some 7) 7
              [Demo.obj "default" "first"; Demo.obj "other" "x";
               Demo.obj "default" "second"]
              [] eq_refl eq_refl repeating_populates _).
    repeat constructor; discriminate.
Defined.

Lemma collection_stops_at_unserializable_witness :
  ListItems (Cluster := Fragile.cluster) Service 7 "default" =
    inr [Fragile.good; Fragile.bad; Fragile.late]
  /\ pretty (ResT := Fragile.ResObject) Fragile.bad =
     inl "json: unsupported value"
  /\ collectionOnAdd (env := Fragile.cluster) Service (Some 7) "default" [] [] =
     (Panic (PanicError "json: unsupported value"),
      [("a", leaf (env := Fragile.cluster) (Demo.encode Fragile.good))],
      [ReqList Service "default"]).
Proof.
  split; [reflexivity|]. split; [reflexivity|].
  refine (collection_stops_at_unserializable (env := Fragile.cluster)
            Service 7 "default" (pre := [Fragile.good]) [Fragile.late]
            Fragile.bad [] [] eq_refl _ _ eq_refl).
  - repeat constructor.
  - repeat constructor; discriminate.
Defined.

Lemma namespace_hook_failures_witness :
  KubernetesNamespace_OnAdd (env := Fragile.cluster)
    {| recv := Build_KubernetesNamespace (env := Fragile.cluster)
                 (Some 7) Fragile.bad;
       children := []; requests := [] |} =
  (Panic (PanicError "json: unsupported value"),
   {| recv := Build_KubernetesNamespace (env := Fragile.cluster)
                (Some 7) Fragile.bad;
      children := []; requests := [] |})
  /\ KubernetesNamespace_OnAdd (env := Demo.failing)
       {| recv := Build_KubernetesNamespace (env := Demo.failing)
                    (Some 7) Demo.default;
          children := []; requests := [] |} =
     (Panic (PanicError "forbidden"),
      {| recv := Build_KubernetesNamespace (env := Demo.failing)
                   (Some 7) Demo.default;
         children := [("namespace.json",
                       leaf (env := Demo.failing) (Demo.encode Demo.default))];
         requests := [ReqList Service "default"] |})
  /\ KubernetesNamespace_OnAdd (env := Demo.cluster)
       {| recv := Build_KubernetesNamespace (env := Demo.cluster)
                    None Demo.default;
          children := []; requests := [] |} =
     (Panic NilPointerDereference,
      {| recv := Build_KubernetesNamespace (env := Demo.cluster)
                   None Demo.default;
         children := [("namespace.json",
                       leaf (env := Demo.cluster) (Demo.encode Demo.default))];
         requests := [] |}).
Proof.
  split; [|split].
  - exact (proj1 (@namespace_hook_failures Fragile.cluster (Some 7)
                    Fragile.bad [] [])
             "json: unsupported value" eq_refl).
  - exact (proj2 (@namespace_hook_failures Demo.failing (Some 7)
                    Demo.default [] [])
             (Demo.encode Demo.default) eq_refl "forbidden" eq_refl).
  - exact (proj2 (@namespace_hook_failures Demo.cluster None
                    Demo.default [] [])
             (Demo.encode Demo.default) eq_refl).
Defined.

Lemma root_without_configuration_witness :
  BuildConfigFromFlags (Cluster := Fragile.unconfigured) EmptyString
    "/home/op/.kube/config" = inl "no such file"
  /\ KubernetesRoot_OnAdd (env := Fragile.unconfigured)
       {| recv := Build_KubernetesRoot (env := Fragile.unconfigured) None;
          children := []; requests := [] |} =
     (Panic (PanicError "no such file"),
      {| recv := Build_KubernetesRoot (env := Fragile.unconfigured) None;
         children := [];
         requests := [ReqBuildConfig EmptyString "/home/op/.kube/config"] |}).
Proof.
  split; [reflexivity|].
  exact (root_without_configuration (env := Fragile.unconfigured)
           [] [] eq_refl).
Defined.

Lemma root_without_client_witness :
  NewForConfig (Cluster := Fragile.refused) "/home/op/.kube/config" =
    inl "bad certificate"
  /\ KubernetesRoot_OnAdd (env := Fragile.refused)
       {| recv := Build_KubernetesRoot (env := Fragile.refused) None;
          children := []; requests := [] |} =
     (Panic (PanicError "bad certificate"),
      {| recv := Build_KubernetesRoot (env := Fragile.refused) None;
         children := [];
         requests := [ReqBuildConfig EmptyString "/home/op/.kube/config";
                      ReqNewForConfig] |}).
Proof.
  split; [reflexivity|].
  exact (root_without_client (env := Fragile.refused)
           (config := "/home/op/.kube/config") [] [] eq_refl eq_refl).
Defined.

Lemma demo_collections (k : Kind) :
  collectionPopulates (env := Demo.cluster) k 7 "default".
Proof.
  destruct k; (split; [reflexivity|]); split;
    repeat (apply Forall_cons || apply Forall_nil);
    (reflexivity || discriminate).
Qed.

Lemma namespace_repopulation_witness :
  KubernetesNamespace_OnAdd (env := Demo.cluster)
    {| recv := Build_KubernetesNamespace (env := Demo.cluster)
                 (Some 7) Demo.default;
       children := [("services", leaf (env := Demo.cluster) [])];
       requests := [] |} =
  (Ok tt,
   {| recv := Build_KubernetesNamespace (env := Demo.cluster)
                (Some 7) Demo.default;
      children :=
        [("services", leaf (env := Demo.cluster) []);
         ("namespace.json",
          leaf (env := Demo.cluster) (Demo.encode Demo.default));
         ("deployments",
          collectionTree (env := Demo.cluster) Deployment 7 "default");
         ("ingresses",
          collectionTree (env := Demo.cluster) Ingress 7 "default")];
      requests := [ReqList Service "default"; ReqList Deployment "default";
                   ReqList Ingress "default"] |}).
Proof.
  exact (proj1 (@namespace_repopulation Demo.cluster 7 Demo.default
                  (Demo.encode Demo.default)
                  [("services", leaf (env := Demo.cluster) [])] []
                  eq_refl demo_collections)).
Defined.

Lemma collection_repopulation_witness :
  collectionOnAdd (env := Demo.cluster) Service (Some 7) "default"
    [("svc-a", leaf (env := Demo.cluster) (Demo.encode Demo.svcA))]
    [ReqList Service "default"] =
  (Ok tt,
   [("svc-a", leaf (env := Demo.cluster) (Demo.encode Demo.svcA))],
   [ReqList Service "default"; ReqList Service "default"]).
Proof.
  refine (collection_repopulation (env := Demo.cluster) Service 7 "default"
            (items := [Demo.svcA]) [] [ReqList Service "default"]
            eq_refl _ _).
  - repeat constructor.
  - repeat constructor; discriminate.
Defined.

Lemma root_repopulation_witness :
  times 2 (KubernetesRoot_OnAdd (env := Demo.cluster))
    {| recv := Build_KubernetesRoot (env := Demo.cluster) None;
       children := []; requests := [] |} =
  (Ok tt,
   {| recv := Build_KubernetesRoot (env := Demo.cluster) (Some 7);
      children :=
        [("default", namespaceTree (env := Demo.cluster) 7 Demo.default);
         ("kube-system",
          namespaceTree (env := Demo.cluster) 7
            (Demo.obj "kube-system" "Active"))];
      requests :=
        [ReqBuildConfig EmptyString "/home/op/.kube/config"; ReqNewForConfig;
         ReqListNamespaces;
         ReqList Service "default"; ReqList Deployment "default";
         ReqList Ingress "default";
         ReqList Service "kube-system"; ReqList Deployment "kube-system";
         ReqList Ingress "kube-system";
         ReqListNamespaces;
         ReqList Service "default"; ReqList Deployment "default";
         ReqList Ingress "default";
         ReqList Service "kube-system"; ReqList Deployment "kube-system";
         ReqList Ingress "kube-system"] |}).
Proof.
  exact (@root_repopulation Demo.cluster 1 None 7
           [Demo.default; Demo.obj "kube-system" "Active"]
           [] [] eq_refl eq_refl demo_populates demo_named).
Defined.

Lemma tree_layout_witness :
  fst (NewNodeFS (env := Demo.cluster) (Build_KubernetesRoot None)) =
    Ok (rootInode (env := Demo.cluster)
          (Build_KubernetesRoot (env := Demo.cluster) (Some 7))
          [("default", namespaceTree (env := Demo.cluster) 7 Demo.default);
           ("kube-system",
            namespaceTree (env := Demo.cluster) 7
              (Demo.obj "kube-system" "Active"))])
  /\ exists cs,
       bootstrap (env := Demo.cluster) None = inr cs
       /\ layout cs ["default"; "services"; "svc-a"]
            (leaf (env := Demo.cluster) (Demo.encode Demo.svcA)).
Proof.
  split; [reflexivity|].
  exact (proj2 (@tree_layout Demo.cluster
                  (rootInode (env := Demo.cluster)
                     (Build_KubernetesRoot (env := Demo.cluster) (Some 7))
                     [("default",
                       namespaceTree (env := Demo.cluster) 7 Demo.default);
                      ("kube-system",
                       namespaceTree (env := Demo.cluster) 7
                         (Demo.obj "kube-system" "Active"))])
                  ["default"; "services"; "svc-a"]
                  (leaf (env := Demo.cluster) (Demo.encode Demo.svcA))
                  eq_refl eq_refl)).
Defined.

Lemma stored_bytes_are_serializations_witness :
  exists tree,
    fst (NewNodeFS (env := Demo.cluster) (Build_KubernetesRoot None)) = Ok tree
    /\ walk tree ["default"; "namespace.json"] =
       Some (leaf (env := Demo.cluster) (Demo.encode Demo.default))
    /\ walk tree ["default"; "services"; "svc-a"] =
       Some (leaf (env := Demo.cluster) (Demo.encode Demo.svcA)).
Proof.
  destruct (@stored_bytes_are_serializations Demo.cluster 7
              [Demo.default; Demo.obj "kube-system" "Active"]
              eq_refl eq_refl demo_populates demo_named)
    as (tree & Ht & Hw).
  exists tree. split; [exact Ht|].
  destruct (Hw "default" Demo.default eq_refl) as (_ & Hj & Hr).
  split; [exact Hj|].
  exact (proj2 (Hr Service "svc-a" Demo.svcA eq_refl)).
Defined.
